(** * chem-autotutor: a shallow embedding of [build.py]

    The script turns a chemical identifier into a bundle of teaching files.
    All chemistry is delegated to RDKit, name translation to the OPSIN jar
    (run as a subprocess) and templating to Jinja2.  Those collaborators
    are taken as an interface ([Externals]); the script's own logic (text
    slicing, the formula regex, the unsaturation arithmetic on Python
    numbers, caption timing, temp-file cleanup and the control flow of
    [main]) is embedded definition by definition. *)

From Stdlib Require Import ZArith NArith QArith Qpower Lia List Bool.
From Stdlib Require Import Floats.SpecFloat.
From stdpp Require Import base option list strings gmap.
From Equations Require Import Equations.

Set Default Proof Using "Type".
Local Open Scope Z_scope.

(** ** Python text

    A Python [str] is a sequence of Unicode code points. *)

Module PyStr.

Definition char := N.
Definition pystr := list char.

(** ASCII literals are written as Rocq strings and converted. *)
Fixpoint py (s : string) : pystr :=
  match s with
  | EmptyString => []
  | String a s' => Ascii.N_of_ascii a :: py s'
  end.
Arguments py s%_string : simpl never.

Definition in_range (lo hi c : N) : bool := ((lo <=? c) && (c <=? hi))%N.

(** [str.isspace] per code point (CPython's [Py_UNICODE_ISSPACE]). *)
Definition is_space (c : char) : bool :=
  in_range 0x09 0x0D c || in_range 0x1C 0x20 c
  || (c =? 0x85)%N || (c =? 0xA0)%N || (c =? 0x1680)%N
  || in_range 0x2000 0x200A c
  || (c =? 0x2028)%N || (c =? 0x2029)%N || (c =? 0x202F)%N
  || (c =? 0x205F)%N || (c =? 0x3000)%N.

(** Line boundaries recognised by [str.splitlines]. *)
Definition is_linebreak (c : char) : bool :=
  in_range 0x0A 0x0D c || in_range 0x1C 0x1E c
  || (c =? 0x85)%N || (c =? 0x2028)%N || (c =? 0x2029)%N.

Definition is_upper (c : char) : bool := in_range 65 90 c.   (* [A-Z] *)
Definition is_lower (c : char) : bool := in_range 97 122 c.  (* [a-z] *)
(** [\d]; the formula strings RDKit emits are ASCII, so only 0-9 occur. *)
Definition is_digit (c : char) : bool := in_range 48 57 c.

Fixpoint lstrip (s : pystr) : pystr :=
  match s with
  | c :: s' => if is_space c then lstrip s' else s
  | [] => []
  end.

Definition rstrip (s : pystr) : pystr := rev (lstrip (rev s)).

(** [s.strip()] *)
Definition strip (s : pystr) : pystr := rstrip (lstrip s).

(** [s.splitlines()]: [cur] is the line being read, reversed. *)
Fixpoint splitlines_go (cur : pystr) (s : pystr) : list pystr :=
  match s with
  | [] => match cur with [] => [] | _ => [rev cur] end
  | c :: rest =>
      if is_linebreak c then
        rev cur ::
          match rest with
          | c' :: rest' =>
              if ((c =? 13) && (c' =? 10))%N
              then splitlines_go [] rest'
              else splitlines_go [] rest
          | [] => []
          end
      else splitlines_go (c :: cur) rest
  end.

Definition splitlines (s : pystr) : list pystr := splitlines_go [] s.

(** [s.split()]: maximal runs of non-space characters. *)
Fixpoint split_go (cur : pystr) (s : pystr) : list pystr :=
  match s with
  | [] => match cur with [] => [] | _ => [rev cur] end
  | c :: rest =>
      if is_space c then
        match cur with
        | [] => split_go [] rest
        | _ => rev cur :: split_go [] rest
        end
      else split_go (c :: cur) rest
  end.

Definition split (s : pystr) : list pystr := split_go [] s.

(** A text without white space. *)
Definition no_space (s : pystr) : Prop := Forall (λ c, is_space c = false) s.

(** ["sep".join(parts)] *)
Fixpoint join (sep : pystr) (parts : list pystr) : pystr :=
  match parts with
  | [] => []
  | [p] => p
  | p :: ps => p ++ sep ++ join sep ps
  end.

Fixpoint is_prefix (p s : pystr) : bool :=
  match p, s with
  | [], _ => true
  | a :: p', b :: s' => (a =? b)%N && is_prefix p' s'
  | _ :: _, [] => false
  end.

(** [needle in hay] *)
Fixpoint contains (needle hay : pystr) : bool :=
  is_prefix needle hay ||
  match hay with
  | [] => false
  | _ :: hay' => contains needle hay'
  end.

(** [str(n)] / [f"{n}"] for a non-negative int. *)
Definition digit_char (d : N) : char := (48 + d)%N.

Fixpoint dec_go (fuel : nat) (n : N) (acc : pystr) : pystr :=
  match fuel with
  | O => acc
  | S fuel' =>
      let acc' := digit_char (n mod 10) :: acc in
      if (n / 10 =? 0)%N then acc' else dec_go fuel' (n / 10) acc'
  end.

Definition dec (n : N) : pystr := dec_go (S (N.to_nat (N.log2 n))) n [].

(** [f"{n:02d}"]: decimal, left-padded with zeros to width two. *)
Definition dec02 (n : N) : pystr :=
  let d := dec n in
  repeat (digit_char 0) (2 - length d) ++ d.

(** [int(v)] for a non-empty string of ASCII digits. *)
Definition int_of_digits (v : pystr) : Z :=
  fold_left (fun acc c => 10 * acc + Z.of_N (c - 48)) v 0.

End PyStr.
Export PyStr.

(** ** Exceptions, effects and the outside world *)

Inductive exn :=
  | NameError (name : pystr)          (* also covers UnboundLocalError *)
  | IndexError
  | RuntimeError (msg : pystr)
  | ValueError (msg : pystr)
  | TypeError
  | OverflowError
  | ZeroDivisionError
  | UnicodeError                      (* encode / decode failures *)
  | OSError                           (* and its subclasses *)
  | CalledProcessError (code : Z)
  | LibraryError (tag : N).           (* anything a collaborator raises *)

Inductive result (A : Type) :=
  | Ok (a : A)
  | Raise (e : exn).
Arguments Ok {A} a.
Arguments Raise {A} e.

(** What a file holds: text, or bytes that do not decode as UTF-8. *)
Inductive content :=
  | Text (s : pystr)
  | Binary.

(** Values that travel to the template engine. *)
Inductive pyval :=
  | PyNone
  | PyStr (s : pystr)
  | PyFloat (f : spec_float)
  | PyList (l : list pystr).            (* the bullet lists are lists of str *)

(** One rendering of a template source with keyword arguments. *)
Record render_call := RenderCall {
  rc_template : pystr;
  rc_kwargs : list (pystr * pyval)
}.

Record world := World {
  files : gmap pystr content;   (* regular files, by path *)
  dirs : gset pystr;            (* directories created so far *)
  renders : list render_call;   (* template renderings, oldest first *)
  stdout : list pystr           (* printed lines, oldest first *)
}.

Definition set_files (f : gmap pystr content → gmap pystr content) (w : world) : world :=
  World (f (files w)) (dirs w) (renders w) (stdout w).

#[export] Instance result_ret : MRet result := λ A a, Ok a.
#[export] Instance result_bind : MBind result := λ A B f r,
  match r with
  | Ok a => f a
  | Raise e => Raise e
  end.

Definition M (A : Type) : Type := world → result A * world.

#[export] Instance M_ret : MRet M := λ A a w, (Ok a, w).
#[export] Instance M_bind : MBind M := λ A B f m w,
  match m w with
  | (Ok a, w') => f a w'
  | (Raise e, w') => (Raise e, w')
  end.

Definition raise {A} (e : exn) : M A := λ w, (Raise e, w).

Definition lift {A} (r : result A) : M A := λ w, (r, w).

(** [try: body finally: fin] *)
Definition try_finally {A} (body : M A) (fin : M unit) : M A := λ w,
  let '(r, w1) := body w in
  match fin w1 with
  | (Ok _, w2) => (r, w2)
  | (Raise e, w2) => (Raise e, w2)
  end.

Definition is_OSError (e : exn) : bool :=
  match e with OSError => true | _ => false end.

(** [try: body except OSError: pass] *)
Definition except_OSError_pass (body : M unit) : M unit := λ w,
  match body w with
  | (Raise e, w') => if is_OSError e then (Ok (), w') else (Raise e, w')
  | ok => ok
  end.

(** [for x in xs: body x] *)
Fixpoint for_each {A} (xs : list A) (body : A → M unit) : M unit :=
  match xs with
  | [] => mret ()
  | x :: xs' => body x ;; for_each xs' body
  end.

(** [xs[0]] *)
Definition index0 {A} (xs : list A) : result A :=
  match xs with
  | x :: _ => Ok x
  | [] => Raise IndexError
  end.

(** Lines 64-69 of [name_to_smiles]: from the text of the response file
    to the returned SMILES. *)
Definition extract_smiles (raw : pystr) : result pystr :=
  let out := strip raw in
  line ← index0 (splitlines out) ;
  smi ← index0 (split line) ;
  match smi with
  | [] => Raise (RuntimeError (py "OPSIN returned empty SMILES"))
  | _ => Ok smi
  end.

(** Truthiness of an optional string argument ([None] and [""] are falsy). *)
Definition truthy (o : option pystr) : bool :=
  match o with
  | Some (_ :: _) => true
  | _ => false
  end.

(** [a or b] on optional strings. *)
Definition py_or (a b : option pystr) : option pystr :=
  if truthy a then a else b.

(** UTF-8 cannot encode lone surrogates. *)
Definition encodable (s : pystr) : bool :=
  forallb (λ c, negb (in_range 0xD800 0xDFFF c)) s.

(** [Path(p).write_text(s)]: the file is opened (and truncated) first.
    The directory the path lies in is taken to exist and to be writable. *)
Definition write_text (p : pystr) (s : pystr) : M unit := λ w,
  if encodable s
  then (Ok (), set_files (insert p (Text s)) w)
  else (Raise UnicodeError, set_files (insert p (Text [])) w).

(** [Path(p).read_text(encoding="utf-8")] *)
Definition read_text (p : pystr) : M pystr := λ w,
  match files w !! p with
  | Some (Text s) => (Ok s, w)
  | Some Binary => (Raise UnicodeError, w)
  | None => (Raise OSError, w)
  end.

(** [os.unlink(p)] *)
Definition os_unlink (p : pystr) : M unit := λ w,
  match files w !! p with
  | Some _ => (Ok (), set_files (delete p) w)
  | None => (Raise OSError, w)
  end.

(** How a child process ended. *)
Inductive proc_outcome :=
  | Exited (code : Z)
  | SpawnFailed.                (* the executable could not be started *)

Definition newline : char := 10%N.

Definition DU_PREFIX : pystr := py "Double-bond equivalents (DU): ".

(** ** Python numbers

    [int] is unbounded ([Z]); [float] is IEEE 754 binary64, given by the
    Standard Library's specification of it. *)

Definition prec : Z := 53.
Definition emax : Z := 1024.

(** Implicit [int] to [float] conversion in mixed arithmetic: correctly
    rounded, [OverflowError] when the int is too large. *)
Definition float_of_int (z : Z) : result spec_float :=
  match binary_normalize prec emax z 0 false with
  | S754_infinity _ => Raise OverflowError
  | f => Ok f
  end.

(** [a / b] on two ints: the correctly rounded quotient. *)
Definition int_truediv (a b : Z) : result spec_float :=
  if b =? 0 then Raise ZeroDivisionError
  else
    let s := xorb (a <? 0) (b <? 0) in
    match a with
    | 0 => Ok (S754_zero s)
    | _ =>
        let '(q, e, l) := SFdiv_core_binary prec emax (Z.abs a) 0 (Z.abs b) 0 in
        match binary_round_aux prec emax s q e l with
        | S754_infinity _ => Raise OverflowError
        | f => Ok f
        end
    end.

(** [x - y] on two floats. *)
Definition float_sub (x y : spec_float) : spec_float := SFsub prec emax x y.

Definition formula_du (nC nH nN nX : Z) : result spec_float :=
  let h_equiv := nH + nX - nN in
  let lhs := 1 + nC in
  half ← int_truediv h_equiv 2 ;
  lhs' ← float_of_int lhs ;
  Ok (float_sub lhs' half).

(** The value of a finite float, as a rational. *)
Definition pow2 (e : Z) : Q := (2 ^ e)%Q.

Definition float_value (f : spec_float) : option Q :=
  match f with
  | S754_zero _ => Some 0%Q
  | S754_finite s m e =>
      Some (inject_Z (if s then Zneg m else Zpos m) * pow2 e)%Q
  | _ => None
  end.

(** Number of significant bits of a positive integer. *)
Definition digits (p : positive) : Z := Z.log2 (Zpos p) + 1.

(** A mantissa of at most 53 significant bits, scaled to exactly 53. *)
Definition norm (n : positive) : positive := Z.to_pos (Zpos n * 2 ^ (prec - digits n)).

(** Round the rational [n / d] ([d > 0]) to an integer, ties to even. *)
Definition round_half_even (n d : Z) : Z :=
  let q := n / d in
  let r := n mod d in
  match 2 * r ?= d with
  | Lt => q
  | Gt => q + 1
  | Eq => if Z.even q then q else q + 1
  end.

(** [f"{x:.1f}"] *)
Definition format_1f (x : spec_float) : pystr :=
  match x with
  | S754_nan => py "nan"
  | S754_infinity s => if s then py "-inf" else py "inf"
  | S754_zero s => if s then py "-0.0" else py "0.0"
  | S754_finite s m e =>
      let tenths :=
        match e with
        | Zneg p => round_half_even (Zpos m * 10) (Z.pow_pos 2 p)
        | _ => Zpos m * 10 * 2 ^ e
        end in
      (if s then py "-" else []) ++
      dec (Z.to_N (tenths / 10)) ++ py "." ++ dec (Z.to_N (tenths mod 10))
  end.

(** ** The formula regex

    [re.findall] with two groups, an upper-case letter with an optional
    lower-case letter, then a possibly empty run of digits: scan left to
    right; at an upper-case letter take it, one lower-case letter if there
    is one, and all the digits that follow; anywhere else move on by one
    character. *)

Definition take_lower (s : pystr) : pystr :=
  match s with
  | c :: _ => if is_lower c then [c] else []
  | [] => []
  end.

Definition drop_lower (s : pystr) : pystr :=
  match s with
  | c :: s' => if is_lower c then s' else s
  | [] => []
  end.

Fixpoint take_digits (s : pystr) : pystr :=
  match s with
  | c :: s' => if is_digit c then c :: take_digits s' else []
  | [] => []
  end.

Fixpoint drop_digits (s : pystr) : pystr :=
  match s with
  | c :: s' => if is_digit c then drop_digits s' else s
  | [] => []
  end.

Equations? findall (s : pystr) : list (pystr * pystr) by wf (length s) lt :=
  findall [] := [];
  findall (c :: rest) :=
    if is_upper c
    then (c :: take_lower rest, take_digits (drop_lower rest))
           :: findall (drop_digits (drop_lower rest))
    else findall rest.
Proof.
  assert (∀ s, (length (drop_digits s) <= length s)%nat) as Hdigits.
  { induction s as [|a s IH]; simpl; [lia|]. destruct (is_digit a); simpl; lia. }
  assert (length (drop_lower rest) <= length rest)%nat as Hlower.
  { destruct rest as [|a s]; simpl; [lia|]. destruct (is_lower a); simpl; lia. }
  specialize (Hdigits (drop_lower rest)). simpl. lia.
Qed.

(** [dict(pairs)]: a later pair for the same key replaces the earlier. *)
Definition dict (pairs : list (pystr * pystr)) : gmap pystr pystr :=
  fold_left (λ m kv, <[kv.1 := kv.2]> m) pairs ∅.

(** The local helper [get] of [compute_facts]. *)
Definition get (counts : gmap pystr pystr) (sym : pystr) : Z :=
  match counts !! sym with
  | None => 0
  | Some v => match v with [] => 1 | _ => int_of_digits v end
  end.

(** Lines 116-139 of [compute_facts]: from the formula string to DU. *)
Definition du_of_formula (formula : pystr) : result spec_float :=
  let counts := dict (findall formula) in
  let nC := get counts (py "C") in
  let nH := get counts (py "H") in
  let nN := get counts (py "N") in
  let nF := get counts (py "F") in
  let nCl := get counts (py "Cl") in
  let nBr := get counts (py "Br") in
  let nI := get counts (py "I") in
  formula_du nC nH nN (nF + nCl + nBr + nI).

(** ** Pure parts of the script *)

Definition utf (cp : N) : pystr := [cp].

Definition make_bullets_from_name (name : pystr) : list pystr :=
  match name with
  | [] => []
  | _ =>
      let b := [] in
      let b := if contains (py "meth") name then b ++ [py "Parent chain includes: meth- (1 carbon)."] else b in
      let b := if contains (py "eth") name then b ++ [py "Parent chain includes: eth- (2 carbons)."] else b in
      let b := if contains (py "prop") name then b ++ [py "Parent chain includes: prop- (3 carbons)."] else b in
      let b := if contains (py "but") name then b ++ [py "Parent chain includes: but- (4 carbons)."] else b in
      let b := if contains (py "pent") name then b ++ [py "Parent chain includes: pent- (5 carbons)."] else b in
      let b := if contains (py "hex") name then b ++ [py "Parent chain includes: hex- (6 carbons)."] else b in
      let b := if contains (py "hept") name then b ++ [py "Parent chain includes: hept- (7 carbons)."] else b in
      let b := if contains (py "oct") name then b ++ [py "Parent chain includes: oct- (8 carbons)."] else b in
      let b := if contains (py "non") name then b ++ [py "Parent chain includes: non- (9 carbons)."] else b in
      let b := if contains (py "dec") name then b ++ [py "Parent chain includes: dec- (10 carbons)."] else b in
      let b := if contains (py "en") name then b ++ [py "Contains a C=C double bond (-en-)."] else b in
      let b := if contains (py "yn") name
               then b ++ [py "Contains a C" ++ utf 0x2261 ++ py "C triple bond (-yn-)."] else b in
      let b := if contains (py "methyl") name
               then b ++ [py "Has a methyl (-CH" ++ utf 0x2083 ++ py ") substituent."] else b in
      let b := if contains (py "bromo") name then b ++ [py "Has a bromine substituent."] else b in
      b
  end.

(** [str(x)] of a value that is a string or [None]. *)
Definition str_opt (o : option pystr) : pystr :=
  match o with
  | Some s => s
  | None => py "None"
  end.

(** One pass of the caption loop of [make_script]; [i] is the block number
    and [t] the running start time in seconds. *)
Fixpoint srt_loop (i t : N) (lines : list pystr) : list pystr :=
  match lines with
  | [] => []
  | line :: rest =>
      (dec i ++ [newline] ++
       py "00:00:" ++ dec02 t ++ py ",000 --> 00:00:" ++ dec02 (t + 3) ++ py ",000" ++
       [newline] ++ line ++ [newline])
      :: srt_loop (i + 1) (t + 3) rest
  end.

(** The collaborators.  [Mol] is RDKit's molecule handle. *)
Class Externals := {
  Mol : Type;
  (* tempfile / subprocess *)
  tmpname : pystr → gmap pystr content → option pystr;
  run_process : list pystr → gmap pystr content → proc_outcome * gmap pystr content;
  (* pathlib *)
  HERE : pystr;
  path_div : pystr → pystr → pystr;
  (* RDKit *)
  MolFromSmiles : pystr → option Mol;
  MolFromInchi : pystr → option Mol;
  AddHs : Mol → Mol;
  MolToSmiles : Mol → pystr;
  CalcMolFormula : Mol → pystr;
  CalcExactMolWt : Mol → spec_float;
  EmbedMolecule : Mol → Mol;
  UFFOptimizeMolecule : Mol → result Mol;
  MolToMolBlock : Mol → pystr;
  RemoveHs : Mol → Mol;
  Compute2DCoords : Mol → Mol;
  MolToFile : Mol → result content;
  (* Jinja2 *)
  jinja_render : pystr → list (pystr * pyval) → result pystr;
  (* builtins on floats *)
  round4 : spec_float → spec_float;
  float_repr : spec_float → pystr
}.

(** What [parse_args] returns. *)
Record Namespace := {
  args_name : option pystr;
  args_smiles : option pystr;
  args_inchi : option pystr;
  args_formula : option pystr;
  args_tutorial : option pystr;
  args_out : pystr
}.

(** ** The module namespace

    Names are looked up when a line runs.  Every name [main] uses is bound
    by the file itself, except one, so only that lookup is kept dynamic. *)

Inductive pyobj :=
  | Callable (f : option pystr → result pystr)
  | Opaque.

(** The names bound by executing the file: imports, constants, functions. *)
Definition module_names : list pystr :=
  [py "os"; py "argparse"; py "subprocess"; py "Path"; py "Template";
   py "Chem"; py "AllChem"; py "Draw"; py "rdMolDescriptors";
   py "HERE"; py "TPL_HTML"; py "TPL_YT"; py "OPSIN";
   py "ensure_out"; py "name_to_smiles"; py "mol_from_any"; py "formula_du";
   py "compute_facts"; py "make_artifacts"; py "render_html";
   py "make_bullets_from_name"; py "make_script"; py "main"].

Definition module_namespace : gmap pystr pyobj :=
  list_to_map (map (λ n, (n, Opaque)) module_names).

(** The functions of Python's [builtins] module. *)
Definition builtin_names : list pystr :=
  [py "abs"; py "aiter"; py "all"; py "anext"; py "any"; py "ascii";
   py "bin"; py "bool"; py "breakpoint"; py "bytearray"; py "bytes";
   py "callable"; py "chr"; py "classmethod"; py "compile"; py "complex";
   py "delattr"; py "dict"; py "dir"; py "divmod"; py "enumerate";
   py "eval"; py "exec"; py "filter"; py "float"; py "format";
   py "frozenset"; py "getattr"; py "globals"; py "hasattr"; py "hash";
   py "help"; py "hex"; py "id"; py "input"; py "int"; py "isinstance";
   py "issubclass"; py "iter"; py "len"; py "list"; py "locals"; py "map";
   py "max"; py "memoryview"; py "min"; py "next"; py "object"; py "oct";
   py "open"; py "ord"; py "pow"; py "print"; py "property"; py "range";
   py "repr"; py "reversed"; py "round"; py "set"; py "setattr";
   py "slice"; py "sorted"; py "staticmethod"; py "str"; py "sum";
   py "super"; py "tuple"; py "type"; py "vars"; py "zip"; py "__import__"].

(** Loading a global name: the module namespace, then the builtins. *)
Definition load_global (ns : gmap pystr pyobj) (name : pystr) : result pyobj :=
  match ns !! name with
  | Some o => Ok o
  | None =>
      if bool_decide (name ∈ builtin_names) then Ok Opaque
      else Raise (NameError name)
  end.

(** Calling a loaded object with one argument. *)
Definition call1 (o : pyobj) (arg : option pystr) : result pystr :=
  match o with
  | Callable f => f arg
  | Opaque => Raise TypeError
  end.

(** Reading a local variable that may not have been assigned yet. *)
Definition load_local {A} (name : pystr) (v : option A) : result A :=
  match v with
  | Some a => Ok a
  | None => Raise (NameError name)
  end.

Definition opt_val (o : option pystr) : pyval :=
  match o with
  | Some s => PyStr s
  | None => PyNone
  end.

Section Program.
Context `{E : Externals}.

(** Module constant [OPSIN = HERE / "opsin.jar"]. *)
Definition OPSIN : pystr := path_div HERE (py "opsin.jar").

(** [tempfile.mkstemp(prefix=..., text=True)] followed by [os.close(fd)]:
    an empty file under a name of the library's choosing. *)
Definition mkstemp (prefix : pystr) : M pystr := λ w,
  match tmpname prefix (files w) with
  | Some p => (Ok p, set_files (insert p (Text [])) w)
  | None => (Raise OSError, w)
  end.

(** [subprocess.check_call(cmd)] *)
Definition check_call (cmd : list pystr) : M unit := λ w,
  let '(o, fs) := run_process cmd (files w) in
  let w' := set_files (λ _, fs) w in
  match o with
  | Exited 0 => (Ok (), w')
  | Exited code => (Raise (CalledProcessError code), w')
  | SpawnFailed => (Raise OSError, w')
  end.

(** The [try] body of [name_to_smiles]. *)
Definition name_to_smiles_body (name in_path out_path : pystr) : M pystr :=
  write_text in_path (strip name ++ [newline]) ;;
  let cmd := [py "java"; py "-jar"; OPSIN; py "-osmi"; in_path; out_path] in
  check_call cmd ;;
  raw ← read_text out_path ;
  lift (extract_smiles raw).

(** The [finally] block of [name_to_smiles]. *)
Definition name_to_smiles_cleanup (in_path out_path : pystr) : M unit :=
  for_each [in_path; out_path] (λ p, except_OSError_pass (os_unlink p)).

Definition name_to_smiles (name : pystr) : M pystr :=
  in_path ← mkstemp (py "opsin_in_") ;
  out_path ← mkstemp (py "opsin_out_") ;
  try_finally (name_to_smiles_body name in_path out_path)
              (name_to_smiles_cleanup in_path out_path).

(** The text read back from the response file, when every step up to and
    including the read succeeds (the translator exited with status zero). *)
Definition opsin_response (name : pystr) : M pystr :=
  in_path ← mkstemp (py "opsin_in_") ;
  out_path ← mkstemp (py "opsin_out_") ;
  write_text in_path (strip name ++ [newline]) ;;
  check_call [py "java"; py "-jar"; OPSIN; py "-osmi"; in_path; out_path] ;;
  read_text out_path.

(** Module constants. *)
Definition TPL_HTML : pystr := path_div (path_div HERE (py "templates")) (py "page.html.j2").
Definition TPL_YT : pystr := path_div (path_div HERE (py "templates")) (py "youtube_desc.md.j2").

(** [dirpath.mkdir(parents=True, exist_ok=True)].  Paths are whole strings
    here: of all that can be in the way only a regular file at the path
    itself is modelled. *)
Definition ensure_out (dirpath : pystr) : M pystr := λ w,
  match files w !! dirpath with
  | Some _ => (Raise OSError, w)
  | None => (Ok dirpath, World (files w) ({[dirpath]} ∪ dirs w) (renders w) (stdout w))
  end.

Definition mol_from_any (name smiles inchi : option pystr) : M (Mol * pystr) :=
  smiles ← (match name with
            | Some (c :: n) => s ← name_to_smiles (c :: n) ; mret (Some s)
            | _ => mret smiles
            end) ;
  mol ← (match inchi with
         | Some (c :: i) => mret (MolFromInchi (c :: i))
         | _ =>
             match smiles with
             | Some s => mret (MolFromSmiles s)
             | None => raise TypeError
             end
         end) ;
  match mol with
  | None => raise (ValueError (py "Could not parse structure from input."))
  | Some mol =>
      let mol := AddHs mol in
      mret (mol, match smiles with
                 | Some (c :: s) => c :: s
                 | _ => MolToSmiles mol
                 end)
  end.

Definition compute_facts (mol : Mol) : result (pystr * spec_float * spec_float) :=
  let formula := CalcMolFormula mol in
  let mw := round4 (CalcExactMolWt mol) in
  du ← du_of_formula formula ;
  Ok (formula, mw, du).

(** A file written by a library, contents as the library gives them. *)
Definition write_content (p : pystr) (c : content) : M unit := λ w,
  (Ok (), set_files (insert p c) w).

Definition make_artifacts (mol : Mol) (outdir : pystr) : M pystr :=
  let mol := EmbedMolecule mol in
  mol ← lift (UFFOptimizeMolecule mol) ;
  let sdf := MolToMolBlock mol in
  write_text (path_div outdir (py "model.sdf")) sdf ;;
  let mol2d := RemoveHs mol in
  let mol2d := Compute2DCoords mol2d in
  png ← lift (MolToFile mol2d) ;
  write_content (path_div outdir (py "structure.png")) png ;;
  mret sdf.

(** [Template(src).render(...)]; the call is recorded. *)
Definition render (src : pystr) (kwargs : list (pystr * pyval)) : M pystr := λ w,
  (jinja_render src kwargs,
   World (files w) (dirs w) (renders w ++ [RenderCall src kwargs]) (stdout w)).

(** The second definition of [render_html], the one bound when [main] runs. *)
Definition render_html (title : option pystr) (smiles formula : pystr)
    (mw : spec_float) (sdf : pystr) (bullets : list pystr) (outdir : pystr)
    (du : option spec_float) (tutorial_id : option pystr) (subtitle : pystr) : M unit :=
  src ← read_text TPL_HTML ;
  html ← render src
    [(py "title", opt_val title); (py "subtitle", PyStr subtitle);
     (py "tutorial_id", opt_val tutorial_id); (py "smiles", PyStr smiles);
     (py "formula", PyStr formula); (py "mw", PyFloat mw); (py "sdf", PyStr sdf);
     (py "bullets", PyList bullets);
     (py "du", match du with Some d => PyFloat d | None => PyNone end)] ;
  write_text (path_div outdir (py "index.html")) html.

(** The four narration lines of [make_script]. *)
Definition narration (title : option pystr) (formula : pystr) (mw : spec_float)
    (smiles : pystr) (du : spec_float) : list pystr :=
  [py "Title: " ++ str_opt title;
   py "Formula: " ++ formula ++ py " | Exact mass " ++ float_repr mw
     ++ py " u | SMILES: " ++ smiles;
   py "Unsaturation (rings + double + 2*triple): DU = " ++ format_1f du;
   py "Naming checklist: longest chain, lowest locants for multiple bonds, then substituents alphabetically."].

Definition make_script (title : option pystr) (formula : pystr) (mw : spec_float)
    (smiles : pystr) (du : spec_float) : pystr * pystr :=
  let bullets := narration title formula mw smiles du in
  let voiceover := join [newline] bullets in
  let srt_lines := srt_loop 1 0 bullets in
  (voiceover, join [newline] srt_lines).

Definition print (line : pystr) : M unit := λ w,
  (Ok (), World (files w) (dirs w) (renders w) (stdout w ++ [line])).

(** [x or y] on lists. *)
Definition list_or {A} (x y : list A) : list A :=
  match x with
  | [] => y
  | _ => x
  end.

Definition README_NOTE : pystr :=
  py "Formula-only mode. Provide --name/--smiles to get 3D and facts.".

(** [main], from the parsed arguments on; [ns] is the module namespace. *)
Definition main (ns : gmap pystr pyobj) (args : Namespace) : M unit :=
  let title := py_or (py_or (py_or (args_name args) (args_smiles args))
                            (args_inchi args)) (args_formula args) in
  let base := args_out args in
  slugify ← lift (load_global ns (py "slugify")) ;
  slug ← lift (call1 slugify title) ;
  outdir ← ensure_out (path_div base slug) ;
  if truthy (args_formula args) then
    (* formula-only mode *)
    let sdf := [] in
    let bullets :=
      [py "A single molecular formula can represent many isomers.";
       py "Use degree of unsaturation (DU) to infer rings/double/triple bonds.";
       py "Provide IUPAC name or SMILES to render a unique 3D structure."] in
    smiles ← lift (load_local (py "smiles") (None : option pystr)) ;
    formula ← lift (load_local (py "formula") (None : option pystr)) ;
    mw ← lift (load_local (py "mw") (None : option spec_float)) ;
    du ← lift (load_local (py "du") (None : option spec_float)) ;
    render_html title smiles formula mw sdf bullets outdir (Some du)
      (Some (py "Tutorial 01"))
      (str_opt (py_or (args_tutorial args)
         (Some (py "Understanding Alkene and Alkyne Substitution Patterns")))) ;;
    write_text (path_div outdir (py "README.txt")) README_NOTE ;;
    print (utf 0x2139 ++ utf 0xFE0F ++ py " Generated formula-only explainer at "
           ++ path_div outdir (py "index.html"))
  else
    (* structure mode *)
    '(mol, smiles) ← mol_from_any (args_name args) (args_smiles args) (args_inchi args) ;
    '(formula, mw, du) ← lift (compute_facts mol) ;
    sdf ← make_artifacts mol outdir ;
    let bullets :=
      match args_name args with
      | Some (c :: n) => make_bullets_from_name (c :: n)
      | _ => []
      end in
    (* include DBE/DU note at the end *)
    let bullets := list_or bullets [] ++ [DU_PREFIX ++ format_1f du] in
    render_html title smiles formula mw sdf bullets outdir None None
      (str_opt (py_or (args_tutorial args) (Some []))) ;;
    let '(voiceover, srt) := make_script title formula mw smiles du in
    write_text (path_div outdir (py "voiceover.txt")) voiceover ;;
    write_text (path_div outdir (py "captions.srt")) srt ;;
    src ← read_text TPL_YT ;
    yt ← render src
      [(py "title", opt_val title); (py "smiles", PyStr smiles);
       (py "formula", PyStr formula); (py "mw", PyFloat mw)] ;
    write_text (path_div outdir (py "YOUTUBE_DESCRIPTION.md")) yt ;;
    print (utf 0x2705 ++ py " Done.") ;;
    print (py "Open " ++ path_div outdir (py "index.html")
           ++ py " (interactive 3D). See voiceover.txt and captions.srt.") ;;
    print (py "YouTube description ready at "
           ++ path_div outdir (py "YOUTUBE_DESCRIPTION.md") ++ py ".").

End Program.


(** ** Reading the results *)

(** The keyword argument [k] of a rendering, if it was passed. *)
Fixpoint kwarg (k : pystr) (kws : list (pystr * pyval)) : option pyval :=
  match kws with
  | [] => None
  | (k', v) :: kws' => if bool_decide (k = k') then Some v else kwarg k kws'
  end.

(** The renderings a run added to the log. *)
Definition new_renders (before after : world) : list render_call :=
  drop (length (renders before)) (renders after).

(** The bullets a name gives rise to in [main]. *)
Definition bullets_of_name (name : option pystr) : list pystr :=
  match name with
  | Some (c :: n) => make_bullets_from_name (c :: n)
  | _ => []
  end.

(** The shape of a match of the formula regex: one upper-case letter,
    optionally followed by one lower-case letter, and a run of digits. *)
Definition symbol_shape (sym : pystr) : Prop :=
  ∃ c, is_upper c = true ∧ (sym = [c] ∨ ∃ c', is_lower c' = true ∧ sym = [c; c']).

Definition all_digits (ds : pystr) : Prop := Forall (λ c, is_digit c = true) ds.

(** A computation whose renderings (if any) all satisfy [P], and one that
    renders nothing. *)
Definition logs {A} (P : render_call → Prop) (m : M A) : Prop :=
  ∀ w, ∃ new, renders (snd (m w)) = renders w ++ new ∧ Forall P new.

Definition silent {A} (m : M A) : Prop :=
  ∀ w, renders (snd (m w)) = renders w.

(** The caption format as the specification words it: numbered blocks, each
    with a start and an end time written hours:minutes:seconds,milliseconds
    and the text of its line. *)
Record cue := Cue {
  cue_number : N;
  cue_start : N;      (* milliseconds *)
  cue_stop : N;       (* milliseconds *)
  cue_text : pystr
}.

Definition dec03 (n : N) : pystr :=
  let d := dec n in
  repeat (digit_char 0) (3 - length d) ++ d.

Definition srt_timestamp (ms : N) : pystr :=
  (dec02 (ms / 3600000) ++ py ":" ++ dec02 (ms / 60000 mod 60) ++ py ":" ++
   dec02 (ms / 1000 mod 60) ++ py "," ++ dec03 (ms mod 1000))%N.

Definition render_cue (c : cue) : pystr :=
  dec (cue_number c) ++ [newline] ++
  srt_timestamp (cue_start c) ++ py " --> " ++ srt_timestamp (cue_stop c) ++
  [newline] ++ cue_text c ++ [newline].

(** Line [k] (counting from zero) gets the window from [3k] to [3k + 3] seconds. *)
Definition fixed_cadence (lines : list pystr) : list cue :=
  imap (λ k line, Cue (N.of_nat k + 1) (3000 * N.of_nat k) (3000 * (N.of_nat k + 1)) line)%N
       lines.

(** ** Words for stating further properties *)

(** The keyword table of [make_bullets_from_name], in scan order. *)
Definition bullet_vocabulary : list (pystr * pystr) :=
  [(py "meth", py "Parent chain includes: meth- (1 carbon).");
   (py "eth", py "Parent chain includes: eth- (2 carbons).");
   (py "prop", py "Parent chain includes: prop- (3 carbons).");
   (py "but", py "Parent chain includes: but- (4 carbons).");
   (py "pent", py "Parent chain includes: pent- (5 carbons).");
   (py "hex", py "Parent chain includes: hex- (6 carbons).");
   (py "hept", py "Parent chain includes: hept- (7 carbons).");
   (py "oct", py "Parent chain includes: oct- (8 carbons).");
   (py "non", py "Parent chain includes: non- (9 carbons).");
   (py "dec", py "Parent chain includes: dec- (10 carbons).");
   (py "en", py "Contains a C=C double bond (-en-).");
   (py "yn", py "Contains a C" ++ utf 0x2261 ++ py "C triple bond (-yn-).");
   (py "methyl", py "Has a methyl (-CH" ++ utf 0x2083 ++ py ") substituent.");
   (py "bromo", py "Has a bromine substituent.")].

(** The sentences of the keywords that occur in [name], in table order. *)
Definition table_scan (name : pystr) : list pystr :=
  map snd (List.filter (λ kv, contains kv.1 name) bullet_vocabulary).

(** [s] is empty or begins with an upper-case letter. *)
Definition starts_symbol (s : pystr) : Prop :=
  match s with
  | [] => True
  | c :: _ => is_upper c = true
  end.

(** The text [s] does not go on with a character of class [p]. *)
Definition next_is_not (p : char → bool) (s : pystr) : Prop :=
  match s with
  | [] => True
  | c :: _ => p c = false
  end.

(** The symbols whose counts enter the degree of unsaturation. *)
Definition du_symbols : list pystr :=
  [py "C"; py "H"; py "N"; py "F"; py "Cl"; py "Br"; py "I"].

(** An element symbol: an upper-case letter, optionally a lower-case one. *)
Definition symbol_ok (sym : pystr) : bool :=
  match sym with
  | [c] => is_upper c
  | [c; c'] => is_upper c && is_lower c'
  | _ => false
  end.

(** A count as a compact formula writes it: nothing for 1. *)
Definition count_text (n : N) : pystr := if (n =? 1)%N then [] else dec n.

(** A compact formula: each symbol followed by its count. *)
Definition compact_formula (l : list (pystr * N)) : pystr :=
  flat_map (λ kv, kv.1 ++ count_text kv.2) l.

(** The count a compact formula gives a symbol; 0 when it is not there. *)
Fixpoint count_of (l : list (pystr * N)) (sym : pystr) : N :=
  match l with
  | [] => 0
  | (k, n) :: l' => if bool_decide (k = sym) then n else count_of l' sym
  end.


(** ** A small instance of the collaborators

    Enough of OPSIN, RDKit and Jinja2 to run the model on ethanol. *)

Definition toy_opsin (cmd : list pystr) (fs : gmap pystr content)
    : proc_outcome * gmap pystr content :=
  match cmd with
  | [_; _; _; _; inp; outp] =>
      match fs !! inp with
      | Some (Text t) =>
          if bool_decide (t = py "ethanol" ++ [newline])
          then (Exited 0, <[outp := Text (py "CCO" ++ [newline])]> fs)
          else if bool_decide (t = py "nothing" ++ [newline])
          then (Exited 0, fs)
          else (Exited 1, fs)
      | _ => (Exited 1, fs)
      end
  | _ => (SpawnFailed, fs)
  end.

Definition toy_inchi : pystr := py "InChI=1S/C2H6O/c1-2-3/h3H,2H2,1H3".

#[export] Instance toy : Externals := {|
  Mol := pystr * bool;
  tmpname prefix fs := Some (py "/tmp/" ++ prefix ++ py "0");
  run_process := toy_opsin;
  HERE := py ".";
  path_div a b := a ++ py "/" ++ b;
  MolFromSmiles s := if bool_decide (s = py "CCO") then Some (s, false) else None;
  MolFromInchi i := if bool_decide (i = toy_inchi) then Some (py "CCO", false) else None;
  AddHs m := (m.1, true);
  MolToSmiles m := if m.2 then py "[H]OC([H])([H])C([H])([H])[H]" else m.1;
  CalcMolFormula m := py "C2H6O";
  CalcExactMolWt m := S754_finite false 46 0;
  EmbedMolecule m := m;
  UFFOptimizeMolecule m := Ok m;
  MolToMolBlock m := py "ethanol.mol";
  RemoveHs m := (m.1, false);
  Compute2DCoords m := m;
  MolToFile m := Ok Binary;
  jinja_render src kwargs := Ok src;
  round4 f := f;
  float_repr f := py "46.0"
|}.

Definition toy_world : world :=
  World {[ py "./templates/page.html.j2" := Text (py "page");
           py "./templates/youtube_desc.md.j2" := Text (py "blurb") ]} ∅ [] [].


Definition no_args : Namespace :=
  {| args_name := None; args_smiles := None; args_inchi := None;
     args_formula := None; args_tutorial := None; args_out := py "out" |}.

Definition args_ethanol : Namespace :=
  {| args_name := Some (py "ethanol"); args_smiles := None; args_inchi := None;
     args_formula := None; args_tutorial := None; args_out := py "out" |}.

Definition args_C8H12Br : Namespace :=
  {| args_name := None; args_smiles := None; args_inchi := None;
     args_formula := Some (py "C8H12Br"); args_tutorial := None; args_out := py "out" |}.

(** The namespace after some importer has bound [slugify] to the identity
    on strings. *)
Definition patched_namespace : gmap pystr pyobj :=
  <[py "slugify" := Callable (λ t, Ok (str_opt t))]> module_namespace.

(** * Verified properties *)

(** ** Text slicing *)

Lemma linebreak_is_space c : is_linebreak c = true → is_space c = true.
Proof.
  unfold is_linebreak, is_space, in_range.
  rewrite !orb_true_iff, !andb_true_iff, !N.leb_le, !N.eqb_eq. lia.
Qed.

Lemma lstrip_snoc u c :
  is_space c = false → ∃ v, lstrip (u ++ [c]) = v ++ [c].
Proof.
  intros Hc. induction u as [|a u IH]; simpl.
  - rewrite Hc. by exists [].
  - destruct (is_space a); [done|]. by exists (a :: u).
Qed.

Lemma lstrip_head s : lstrip s = [] ∨ ∃ c t, lstrip s = c :: t ∧ is_space c = false.
Proof.
  induction s as [|a s IH]; simpl; [by left|].
  destruct (is_space a) eqn:Ha; [done|]. right. eauto.
Qed.

Lemma lstrip_blank s : forallb is_space s = true → lstrip s = [].
Proof.
  induction s as [|a s IH]; simpl; [done|].
  rewrite andb_true_iff. intros [-> ?]. auto.
Qed.

(** [strip] leaves nothing, or a text that starts with a non-space. *)
Lemma strip_head s : strip s = [] ∨ ∃ c t, strip s = c :: t ∧ is_space c = false.
Proof.
  unfold strip, rstrip.
  destruct (lstrip_head s) as [->|(c & t & -> & Hc)]; [by left|right].
  simpl. destruct (lstrip_snoc (rev t) c Hc) as [v ->].
  rewrite rev_app_distr. simpl. eauto.
Qed.

Lemma strip_blank s : forallb is_space s = true → strip s = [].
Proof. intros H. unfold strip. by rewrite (lstrip_blank _ H). Qed.

Lemma splitlines_go_first s : ∀ cur x,
  ∃ l ls, splitlines_go (cur ++ [x]) s = (x :: l) :: ls.
Proof.
  induction s as [|c rest IH]; intros cur x; simpl.
  - rewrite rev_app_distr. simpl. destruct (cur ++ [x]) eqn:Heq.
    + by destruct cur.
    + eauto.
  - destruct (is_linebreak c).
    + rewrite rev_app_distr. simpl. eauto.
    + apply (IH (c :: cur) x).
Qed.

Lemma split_go_first s : ∀ cur x,
  ∃ l ls, split_go (cur ++ [x]) s = (x :: l) :: ls.
Proof.
  induction s as [|c rest IH]; intros cur x; simpl.
  - rewrite rev_app_distr. simpl. destruct (cur ++ [x]) eqn:Heq.
    + by destruct cur.
    + eauto.
  - destruct (is_space c).
    + rewrite rev_app_distr. simpl. destruct (cur ++ [x]) eqn:Heq.
      * by destruct cur.
      * eauto.
    + apply (IH (c :: cur) x).
Qed.

Lemma split_go_no_space s : ∀ cur,
  no_space cur → Forall no_space (split_go cur s).
Proof.
  induction s as [|c rest IH]; intros cur Hcur; simpl.
  - destruct cur; constructor; [|constructor].
    apply Forall_rev in Hcur. exact Hcur.
  - destruct (is_space c) eqn:Hc.
    + destruct cur.
      * apply IH. constructor.
      * constructor; [by apply Forall_rev in Hcur|]. apply IH. constructor.
    + apply IH. by constructor.
Qed.

(** The first token of the first line of a stripped, non-empty text. *)
Lemma first_token_of_stripped out c t :
  out = c :: t → is_space c = false →
  ∃ l ls u us, splitlines out = (c :: l) :: ls ∧ split (c :: l) = (c :: u) :: us
               ∧ no_space (c :: u).
Proof.
  intros -> Hc. unfold splitlines, split. simpl.
  destruct (is_linebreak c) eqn:Hlb.
  { apply linebreak_is_space in Hlb. congruence. }
  destruct (splitlines_go_first t [] c) as (l & ls & Hl). simpl in Hl.
  rewrite Hl, Hc.
  destruct (split_go_first l [] c) as (u & us & Hu). simpl in Hu.
  exists l, ls, u, us. split; [done|]. split; [done|].
  pose proof (split_go_no_space l [c]) as Hns. rewrite Hu in Hns.
  assert (no_space [c]) as H1 by (by repeat constructor).
  specialize (Hns H1). by inversion Hns.
Qed.

(** ** The name translator *)

Lemma extract_smiles_blank raw :
  forallb is_space raw = true → extract_smiles raw = Raise IndexError.
Proof. intros H. unfold extract_smiles. by rewrite (strip_blank _ H). Qed.

Lemma extract_smiles_cases raw :
  (strip raw = [] ∧ extract_smiles raw = Raise IndexError) ∨
  (∃ c l ls u us, is_space c = false ∧
     splitlines (strip raw) = (c :: l) :: ls ∧
     split (c :: l) = (c :: u) :: us ∧
     no_space (c :: u) ∧
     extract_smiles raw = Ok (c :: u)).
Proof.
  unfold extract_smiles.
  destruct (strip_head raw) as [->|(c & t & Heq & Hc)]; [by left|right].
  destruct (first_token_of_stripped _ c t Heq Hc) as (l & ls & u & us & Hl & Hu & Hns).
  exists c, l, ls, u, us. rewrite Hl. simpl. rewrite Hu. by simpl.
Qed.

Section Translator.
Context `{E : Externals}.

Lemma unlink_quietly p w :
  ∃ w', except_OSError_pass (os_unlink p) w = (Ok (), w')
        ∧ files w' = delete p (files w).
Proof.
  unfold except_OSError_pass, os_unlink.
  destruct (files w !! p) eqn:Hp; simpl.
  - eauto.
  - exists w. split; [done|]. symmetry. by apply delete_id.
Qed.

Lemma cleanup_removes in_path out_path w :
  ∃ w', name_to_smiles_cleanup in_path out_path w = (Ok (), w')
        ∧ files w' !! in_path = None ∧ files w' !! out_path = None.
Proof.
  unfold name_to_smiles_cleanup, for_each, mbind, M_bind.
  destruct (unlink_quietly in_path w) as (w1 & -> & H1).
  destruct (unlink_quietly out_path w1) as (w2 & -> & H2).
  exists w2. split; [done|]. rewrite H2, H1. split.
  - destruct (decide (in_path = out_path)) as [->|Hne].
    + by rewrite lookup_delete_eq.
    + by rewrite lookup_delete_ne, lookup_delete_eq.
  - by rewrite lookup_delete_eq.
Qed.

(** Whatever the protected body does, the [finally] block leaves neither
    temporary file behind and hands the body's outcome on. *)
Lemma try_finally_cleanup {A} (body : M A) in_path out_path w :
  ∃ w', try_finally body (name_to_smiles_cleanup in_path out_path) w
          = (fst (body w), w')
        ∧ files w' !! in_path = None ∧ files w' !! out_path = None.
Proof.
  unfold try_finally. destruct (body w) as [r w1].
  destruct (cleanup_removes in_path out_path w1) as (w' & -> & ? & ?).
  eauto.
Qed.

(** The outcome of [name_to_smiles] is the extraction applied to the
    response text, or the failure of an earlier step. *)
Lemma name_to_smiles_outcome name w :
  fst (name_to_smiles name w) =
    match fst (opsin_response name w) with
    | Ok raw => extract_smiles raw
    | Raise e => Raise e
    end.
Proof.
  unfold name_to_smiles, opsin_response, mbind, M_bind.
  destruct (mkstemp (py "opsin_in_") w) as [[in_path|e] w1]; [|done].
  destruct (mkstemp (py "opsin_out_") w1) as [[out_path|e] w2]; [|done].
  destruct (try_finally_cleanup (name_to_smiles_body name in_path out_path)
              in_path out_path w2) as (w' & -> & _).
  unfold name_to_smiles_body, mbind, M_bind. simpl.
  destruct (write_text _ _ w2) as [[[]|e] w3]; [|done].
  destruct (check_call _ w3) as [[[]|e] w4]; [|done].
  destruct (read_text out_path w4) as [[raw|e] w5]; [|done].
  done.
Qed.
End Translator.

Example findall_ex : findall (py "C8H12Br") = [(py "C", py "8"); (py "H", py "12"); (py "Br", [])].
Proof. vm_compute. reflexivity. Qed.
Example du_ex : du_of_formula (py "C2H6O") = Ok (S754_zero false).
Proof. vm_compute. reflexivity. Qed.
Example du_ex2 : (f ← formula_du 8 12 0 1; Ok (format_1f f)) = Ok (py "2.5").
Proof. vm_compute. reflexivity. Qed.

Example toy_name : fst (name_to_smiles (py "ethanol") toy_world) = Ok (py "CCO").
Proof. vm_compute. reflexivity. Qed.
Example toy_main : fst (main patched_namespace args_ethanol toy_world) = Ok ().
Proof. vm_compute. reflexivity. Qed.

Section TranslatorClaims.
Context `{E : Externals}.

Lemma mkstemp_raises prefix w e w' :
  mkstemp prefix w = (Raise e, w') → e = OSError.
Proof. unfold mkstemp. destruct (tmpname _ _); by intros [= <- _]. Qed.

Lemma write_text_raises p t w e w' :
  write_text p t w = (Raise e, w') → e = UnicodeError.
Proof. unfold write_text. destruct (encodable t); by intros [= <- _]. Qed.

Lemma check_call_raises cmd w e w' :
  check_call cmd w = (Raise e, w') → e = OSError ∨ ∃ code, e = CalledProcessError code.
Proof.
  unfold check_call. destruct (run_process _ _) as [[[| |]|] fs];
    intros [= <- _]; eauto.
Qed.

Lemma read_text_raises p w e w' :
  read_text p w = (Raise e, w') → e = OSError ∨ e = UnicodeError.
Proof.
  unfold read_text. destruct (files w !! p) as [[|]|]; intros [= <- _]; eauto.
Qed.

Lemma opsin_response_not_RuntimeError name w msg :
  fst (opsin_response name w) ≠ Raise (RuntimeError msg).
Proof.
  unfold opsin_response, mbind, M_bind.
  destruct (mkstemp _ w) as [[in_path|e] w1] eqn:H1.
  2:{ apply mkstemp_raises in H1 as ->. done. }
  destruct (mkstemp _ w1) as [[out_path|e] w2] eqn:H2.
  2:{ apply mkstemp_raises in H2 as ->. done. }
  destruct (write_text _ _ w2) as [[[]|e] w3] eqn:H3.
  2:{ apply write_text_raises in H3 as ->. done. }
  destruct (check_call _ w3) as [[[]|e] w4] eqn:H4.
  2:{ apply check_call_raises in H4 as [->|[code ->]]; done. }
  destruct (read_text _ w4) as [[raw|e] w5] eqn:H5; [done|].
  apply read_text_raises in H5 as [->| ->]; done.
Qed.


(** C10: a SMILES that [name_to_smiles] returns is the first
    whitespace-delimited token of the first line of the response, is not
    empty and holds no whitespace; the [RuntimeError] of the empty-string
    check is never raised; and a response that is empty or all whitespace
    ends in an [IndexError]. *)
Theorem name_to_smiles_returns_token name w :
  (∀ smi, fst (name_to_smiles name w) = Ok smi →
     smi ≠ [] ∧ no_space smi ∧
     ∃ raw line lines tokens,
       fst (opsin_response name w) = Ok raw ∧
       splitlines (strip raw) = line :: lines ∧
       split line = smi :: tokens) ∧
  (∀ msg, fst (name_to_smiles name w) ≠ Raise (RuntimeError msg)) ∧
  (∀ raw, fst (opsin_response name w) = Ok raw →
     forallb is_space raw = true →
     fst (name_to_smiles name w) = Raise IndexError).
Proof.
  rewrite name_to_smiles_outcome.
  split; [|split].
  - intros smi H. destruct (fst (opsin_response name w)) as [raw|e] eqn:Hr; [|done].
    destruct (extract_smiles_cases raw)
      as [[_ Hx]|(c & l & ls & u & us & Hc & Hl & Hu & Hns & Hx)];
      rewrite Hx in H; [done|]. injection H as <-.
    split; [done|]. split; [done|]. by exists raw, (c :: l), ls, us.
  - intros msg H. destruct (fst (opsin_response name w)) as [raw|e] eqn:Hr.
    + destruct (extract_smiles_cases raw)
        as [[_ Hx]|(c & l & ls & u & us & Hc & Hl & Hu & Hns & Hx)];
        rewrite Hx in H; done.
    + injection H as ->. exact (opsin_response_not_RuntimeError name w msg Hr).
  - intros raw -> Hblank. by apply extract_smiles_blank.
Qed.

End TranslatorClaims.



Lemma name_to_smiles_returns_token_witness :
  py "CCO" ≠ [] ∧ no_space (py "CCO").
Proof.
  destruct (proj1 (name_to_smiles_returns_token (py "ethanol") toy_world) (py "CCO"))
    as (H1 & H2 & _).
  - vm_compute. reflexivity.
  - exact (conj H1 H2).
Defined.

(** C5: the translator exits with status zero and leaves the response file
    empty; the call ends in [IndexError], not in the [RuntimeError] of the
    empty-token check. *)
Theorem name_to_smiles_empty_response :
  fst (opsin_response (py "nothing") toy_world) = Ok [] ∧
  fst (name_to_smiles (py "nothing") toy_world) = Raise IndexError.
Proof. split; vm_compute; reflexivity. Qed.

(** ** The control flow of [main] *)

Lemma slugify_unbound :
  load_global module_namespace (py "slugify") = Raise (NameError (py "slugify")).
Proof. vm_compute. reflexivity. Qed.

Section MainClaims.
Context `{E : Externals}.

(** A failed lookup of [slugify] ends the run before anything is touched. *)
Lemma main_lookup_fails ns args w e :
  load_global ns (py "slugify") = Raise e → main ns args w = (Raise e, w).
Proof. intros H. unfold main, mbind, M_bind, lift. by rewrite H. Qed.

(** C2: as the file stands, every run of [main] stops with a [NameError]
    for [slugify] when the output directory is computed, whatever the
    arguments; nothing has been written or created by then. *)
Theorem main_stops_at_slugify args w :
  main module_namespace args w = (Raise (NameError (py "slugify")), w).
Proof. apply main_lookup_fails, slugify_unbound. Qed.

(** C1: formula-only mode on C8H12Br.  The run stops at [slugify] and leaves
    the file system as it was, so no README.txt appears; and were [slugify]
    bound to any function, the run would still end in an exception (the
    unassigned local [smiles]) before README.txt is written. *)
Theorem formula_mode_writes_nothing w :
  main module_namespace args_C8H12Br w = (Raise (NameError (py "slugify")), w) ∧
  ∀ f, let run := main (<[py "slugify" := Callable f]> module_namespace) args_C8H12Br w in
       (∃ e, fst run = Raise e) ∧ files (snd run) = files w.
Proof.
  split; [apply main_lookup_fails, slugify_unbound|].
  intros f. unfold main, mbind, M_bind, lift, load_global.
  rewrite lookup_insert_eq. cbn [call1].
  set (title := py_or _ _). destruct (f title) as [slug|e]; [|cbn; eauto].
  unfold ensure_out. destruct (files w !! path_div _ slug); [cbn; eauto|].
  change (truthy (args_formula args_C8H12Br)) with true. cbn. eauto.
Qed.

End MainClaims.

(** ** What reaches the template engine *)

Section RenderLog.
Context `{E : Externals}.

Lemma silent_logs {A} P (m : M A) : silent m → logs P m.
Proof. intros H w. exists []. rewrite H, app_nil_r. by split. Qed.

Lemma logs_bind {A B} P (m : M A) (f : A → M B) :
  logs P m → (∀ a, logs P (f a)) → logs P (m ≫= f).
Proof.
  intros Hm Hf w. unfold mbind, M_bind.
  destruct (Hm w) as (n1 & H1 & HP1). destruct (m w) as [[a|e] w1]; simpl in *.
  - destruct (Hf a w1) as (n2 & H2 & HP2). exists (n1 ++ n2).
    rewrite H2, H1, app_assoc. split; [done|]. by apply Forall_app.
  - eauto.
Qed.

Lemma silent_bind {A B} (m : M A) (f : A → M B) :
  silent m → (∀ a, silent (f a)) → silent (m ≫= f).
Proof.
  intros Hm Hf w. unfold mbind, M_bind. specialize (Hm w).
  destruct (m w) as [[a|e] w1]; simpl in *; [|done].
  by rewrite Hf.
Qed.

Lemma silent_ret {A} (a : A) : silent (mret a).
Proof. done. Qed.

Lemma silent_raise {A} e : silent (raise e : M A).
Proof. done. Qed.

Lemma silent_lift {A} (r : result A) : silent (lift r).
Proof. done. Qed.

Lemma silent_mkstemp prefix : silent (mkstemp prefix).
Proof. intros w. unfold mkstemp. by destruct (tmpname _ _). Qed.

Lemma silent_write_text p t : silent (write_text p t).
Proof. intros w. unfold write_text. by destruct (encodable t). Qed.

Lemma silent_write_content p c : silent (write_content p c).
Proof. done. Qed.

Lemma silent_read_text p : silent (read_text p).
Proof. intros w. unfold read_text. by destruct (files w !! p) as [[|]|]. Qed.

Lemma silent_check_call cmd : silent (check_call cmd).
Proof.
  intros w. unfold check_call. by destruct (run_process _ _) as [[[| |]|] fs].
Qed.

Lemma silent_ensure_out d : silent (ensure_out d).
Proof. intros w. unfold ensure_out. by destruct (files w !! d). Qed.

Lemma silent_print line : silent (print line).
Proof. done. Qed.

Lemma silent_unlink_quietly p : silent (except_OSError_pass (os_unlink p)).
Proof.
  intros w. unfold except_OSError_pass, os_unlink. by destruct (files w !! p).
Qed.

Lemma silent_cleanup in_path out_path :
  silent (name_to_smiles_cleanup in_path out_path).
Proof.
  unfold name_to_smiles_cleanup, for_each.
  apply silent_bind; [apply silent_unlink_quietly|intros _].
  apply silent_bind; [apply silent_unlink_quietly|intros _].
  apply silent_ret.
Qed.

Lemma silent_try_finally {A} (body : M A) fin :
  silent body → silent fin → silent (try_finally body fin).
Proof.
  intros Hb Hf w. unfold try_finally. specialize (Hb w).
  destruct (body w) as [r w1]. specialize (Hf w1).
  destruct (fin w1) as [[[]|e] w2]; simpl in *; congruence.
Qed.

Lemma silent_name_to_smiles name : silent (name_to_smiles name).
Proof.
  unfold name_to_smiles.
  apply silent_bind; [apply silent_mkstemp|intros in_path].
  apply silent_bind; [apply silent_mkstemp|intros out_path].
  apply silent_try_finally; [|apply silent_cleanup].
  unfold name_to_smiles_body.
  apply silent_bind; [apply silent_write_text|intros _].
  apply silent_bind; [apply silent_check_call|intros _].
  apply silent_bind; [apply silent_read_text|intros raw].
  apply silent_lift.
Qed.

Lemma silent_mol_from_any name smiles inchi : silent (mol_from_any name smiles inchi).
Proof.
  unfold mol_from_any.
  apply silent_bind.
  { destruct name as [[|c n]|]; try apply silent_ret.
    apply silent_bind; [apply silent_name_to_smiles|intros s; apply silent_ret]. }
  intros smiles'. apply silent_bind.
  { destruct inchi as [[|c i]|]; try apply silent_ret;
      destruct smiles'; first [apply silent_ret|apply silent_raise]. }
  intros [mol|]; [apply silent_ret|apply silent_raise].
Qed.

Lemma silent_make_artifacts mol outdir : silent (make_artifacts mol outdir).
Proof.
  unfold make_artifacts.
  apply silent_bind; [apply silent_lift|intros m].
  apply silent_bind; [apply silent_write_text|intros _].
  apply silent_bind; [apply silent_lift|intros png].
  apply silent_bind; [apply silent_write_content|intros _].
  apply silent_ret.
Qed.

Lemma logs_render P src kwargs :
  P (RenderCall src kwargs) → logs P (render src kwargs).
Proof.
  intros HP w. exists [RenderCall src kwargs]. split; [done|]. by constructor.
Qed.

(** The keyword lists of the two renderings, looked up for [bullets]. *)
Lemma kwarg_bullets_page v1 v2 v3 v4 v5 v6 v7 v8 v9 :
  kwarg (py "bullets")
    [(py "title", v1); (py "subtitle", v2); (py "tutorial_id", v3);
     (py "smiles", v4); (py "formula", v5); (py "mw", v6); (py "sdf", v7);
     (py "bullets", v8); (py "du", v9)] = Some v8.
Proof. vm_compute. reflexivity. Qed.

Lemma kwarg_bullets_blurb v1 v2 v3 v4 :
  kwarg (py "bullets")
    [(py "title", v1); (py "smiles", v2); (py "formula", v3); (py "mw", v4)] = None.
Proof. vm_compute. reflexivity. Qed.

Lemma list_or_nil {A} (l : list A) : list_or l [] = l.
Proof. by destruct l. Qed.

(** C9: in structure mode, every bullet list that [main] passes to the
    template engine is the name-derived bullets followed by the DU
    sentence, which is therefore its last element. *)
Theorem structure_mode_bullets_end_with_DU ns args w :
  truthy (args_formula args) = false →
  ∀ call bs,
    call ∈ new_renders w (snd (main ns args w)) →
    kwarg (py "bullets") (rc_kwargs call) = Some (PyList bs) →
    ∃ du, bs = bullets_of_name (args_name args) ++ [DU_PREFIX ++ format_1f du]
          ∧ last bs = Some (DU_PREFIX ++ format_1f du).
Proof.
  intros Hmode call bs Hin Hkw.
  set (P := λ (nb : list pystr) (c : render_call), ∀ bs,
         kwarg (py "bullets") (rc_kwargs c) = Some (PyList bs) →
         ∃ du, bs = nb ++ [DU_PREFIX ++ format_1f du]).
  assert (∀ nb, nb = bullets_of_name (args_name args) → logs (P nb) (main ns args))
    as Hlogs.
  { intros nb Hnb. unfold main. rewrite Hmode.
    change (match args_name args with
            | Some (c :: n) => make_bullets_from_name (c :: n)
            | _ => []
            end) with (bullets_of_name (args_name args)).
    rewrite <- Hnb. clear Hnb.
    apply logs_bind; [apply silent_logs, silent_lift|intros slugify].
    apply logs_bind; [apply silent_logs, silent_lift|intros slug].
    apply logs_bind; [apply silent_logs, silent_ensure_out|intros outdir].
    apply logs_bind; [apply silent_logs, silent_mol_from_any|intros [mol smiles]].
    apply logs_bind; [apply silent_logs, silent_lift|intros [[formula mw] du]].
    apply logs_bind; [apply silent_logs, silent_make_artifacts|intros sdf].
    apply logs_bind.
    { unfold render_html.
      apply logs_bind; [apply silent_logs, silent_read_text|intros src].
      apply logs_bind; [|intros html; apply silent_logs, silent_write_text].
      apply logs_render. intros bs' Hbs. cbn [rc_kwargs] in Hbs.
      rewrite kwarg_bullets_page, list_or_nil in Hbs.
      exists du. congruence. }
    intros _. destruct (make_script _ _ _ _ _) as [voiceover srt].
    apply logs_bind; [apply silent_logs, silent_write_text|intros _].
    apply logs_bind; [apply silent_logs, silent_write_text|intros _].
    apply logs_bind; [apply silent_logs, silent_read_text|intros src].
    apply logs_bind.
    { apply logs_render. intros bs' Hbs. cbn [rc_kwargs] in Hbs.
      by rewrite kwarg_bullets_blurb in Hbs. }
    intros yt.
    apply logs_bind; [apply silent_logs, silent_write_text|intros _].
    apply logs_bind; [apply silent_logs, silent_print|intros _].
    apply logs_bind; [apply silent_logs, silent_print|intros _].
    apply silent_logs, silent_print. }
  destruct (Hlogs _ eq_refl w) as (new & Hnew & HP).
  unfold new_renders in Hin. rewrite Hnew, drop_app_length in Hin.
  rewrite Forall_forall in HP. destruct (HP call Hin bs Hkw) as [du ->].
  exists du. split; [done|]. by rewrite last_snoc.
Qed.

End RenderLog.

Lemma structure_mode_bullets_end_with_DU_witness :
  ∃ du,
    [py "Parent chain includes: eth- (2 carbons)."; py "Double-bond equivalents (DU): 0.0"]
      = bullets_of_name (Some (py "ethanol")) ++ [DU_PREFIX ++ format_1f du]
    ∧ last [py "Parent chain includes: eth- (2 carbons).";
            py "Double-bond equivalents (DU): 0.0"]
      = Some (DU_PREFIX ++ format_1f du).
Proof.
  apply (structure_mode_bullets_end_with_DU patched_namespace args_ethanol toy_world
           eq_refl
           (default (RenderCall [] [])
              (head (new_renders toy_world
                       (snd (main patched_namespace args_ethanol toy_world)))))).
  - vm_compute. left.
  - vm_compute. reflexivity.
Defined.

(** ** Captions *)

Section Captions.
Context `{E : Externals}.

(** The caption loop on four lines, against the cue format. *)
Lemma srt_loop_four_lines l1 l2 l3 l4 :
  join [newline] (srt_loop 1 0 [l1; l2; l3; l4]) =
  join [newline] (map render_cue (fixed_cadence [l1; l2; l3; l4])).
Proof. vm_compute. reflexivity. Qed.

(** C7: the narration has four lines; the caption text is four numbered
    blocks, block i running from 3(i-1) to 3i seconds (so the windows follow
    one another without gap or overlap, the first from 00:00:00,000), each
    with its narration line as text and its times written
    hours:minutes:seconds,milliseconds. *)
Theorem captions_fixed_cadence title formula mw smiles du :
  ∃ l1 l2 l3 l4,
    narration title formula mw smiles du = [l1; l2; l3; l4] ∧
    fst (make_script title formula mw smiles du) = join [newline] [l1; l2; l3; l4] ∧
    fixed_cadence [l1; l2; l3; l4] =
      [Cue 1 0 3000 l1; Cue 2 3000 6000 l2; Cue 3 6000 9000 l3; Cue 4 9000 12000 l4] ∧
    snd (make_script title formula mw smiles du) =
      join [newline] (map render_cue (fixed_cadence [l1; l2; l3; l4])) ∧
    srt_timestamp 0 = py "00:00:00,000".
Proof.
  do 4 eexists. split; [reflexivity|]. split; [reflexivity|].
  split; [reflexivity|]. split; [|vm_compute; reflexivity].
  unfold make_script. cbn [snd]. unfold narration. apply srt_loop_four_lines.
Qed.

End Captions.

(** ** The structure builder *)

Section Builder.
Context `{E : Externals}.

Lemma name_to_smiles_ok_nonempty name w smi w' :
  name_to_smiles name w = (Ok smi, w') → ∃ c s, smi = c :: s.
Proof.
  intros H. pose proof (name_to_smiles_outcome name w) as Ho.
  rewrite H in Ho. simpl in Ho.
  destruct (fst (opsin_response name w)) as [raw|e]; [|done].
  destruct (extract_smiles_cases raw)
    as [[_ Hx]|(c & l & ls & u & us & _ & _ & _ & _ & Hx)];
    rewrite Hx in Ho; [done|]. injection Ho as ->. eauto.
Qed.

(** C8: for a SMILES input, and for a name that the translator turns into
    a SMILES, the string handed back is that SMILES itself; for an InChI
    input it is the SMILES written from the graph; the graph handed back
    has had its hydrogens added; a parse that yields no graph raises the
    [ValueError] "Could not parse structure from input.". *)
Theorem mol_from_any_contract w :
  (∀ s, s ≠ [] →
     mol_from_any None (Some s) None w =
       match MolFromSmiles s with
       | Some m => (Ok (AddHs m, s), w)
       | None => (Raise (ValueError (py "Could not parse structure from input.")), w)
       end) ∧
  (∀ n s w', n ≠ [] → name_to_smiles n w = (Ok s, w') →
     mol_from_any (Some n) None None w =
       match MolFromSmiles s with
       | Some m => (Ok (AddHs m, s), w')
       | None => (Raise (ValueError (py "Could not parse structure from input.")), w')
       end) ∧
  (∀ i, i ≠ [] →
     mol_from_any None None (Some i) w =
       match MolFromInchi i with
       | Some m => (Ok (AddHs m, MolToSmiles (AddHs m)), w)
       | None => (Raise (ValueError (py "Could not parse structure from input.")), w)
       end).
Proof.
  split; [|split].
  - intros [|c s] Hs; [done|]. unfold mol_from_any, mbind, M_bind, mret, M_ret.
    by destruct (MolFromSmiles (c :: s)).
  - intros [|c n] s w' Hn Hrun; [done|].
    destruct (name_to_smiles_ok_nonempty _ _ _ _ Hrun) as (c' & s' & ->).
    unfold mol_from_any, mbind, M_bind, mret, M_ret. rewrite Hrun.
    by destruct (MolFromSmiles (c' :: s')).
  - intros [|c i] Hi; [done|]. unfold mol_from_any, mbind, M_bind, mret, M_ret.
    by destruct (MolFromInchi (c :: i)).
Qed.

End Builder.

Lemma mol_from_any_contract_witness :
  mol_from_any None (Some (py "CCO")) None toy_world
    = (Ok ((py "CCO", true), py "CCO"), toy_world).
Proof.
  assert (py "CCO" ≠ []) as Hne by (vm_compute; discriminate).
  pose proof (proj1 (mol_from_any_contract toy_world) (py "CCO") Hne) as Hc.
  vm_compute in Hc. vm_compute. exact Hc.
Defined.

(** ** Element counts *)

Lemma findall_shape s :
  Forall (λ kv, symbol_shape kv.1 ∧ all_digits kv.2) (findall s).
Proof.
  funelim (findall s); [constructor|].
  destruct (is_upper c) eqn:Hc; [|assumption].
  constructor; [|assumption]. simpl. split.
  - exists c. split; [done|]. destruct rest as [|c' rest]; simpl; [by left|].
    destruct (is_lower c') eqn:Hl; [right; eauto|by left].
  - generalize (drop_lower rest). clear. intros t.
    induction t as [|d t IH]; simpl; [constructor|].
    destruct (is_digit d) eqn:Hd; constructor; done.
Qed.

Lemma dict_go_lookup_absent (pairs : list (pystr * pystr)) :
  ∀ (m : gmap pystr pystr) (k : pystr),
  k ∉ pairs.*1 →
  fold_left (λ (m : gmap pystr pystr) kv, <[kv.1 := kv.2]> m) pairs m !! k = m !! k.
Proof.
  induction pairs as [|[k' v'] pairs IH]; intros m k Hk; simpl; [done|].
  simpl in Hk. rewrite not_elem_of_cons in Hk. destruct Hk as [Hne Hk].
  rewrite IH by done. by rewrite lookup_insert_ne.
Qed.

(** The last pair for a key decides its entry. *)
Lemma dict_lookup_last front k v rest :
  k ∉ rest.*1 → dict (front ++ (k, v) :: rest) !! k = Some v.
Proof.
  intros Hk. unfold dict. rewrite fold_left_app. simpl.
  rewrite dict_go_lookup_absent by done. by rewrite lookup_insert_eq.
Qed.

(** ** Arithmetic on Python numbers

    Where every value involved has at most 53 significant bits, binary64
    arithmetic is exact. *)

Lemma digits2_pos_log2 p : Zpos (digits2_pos p) = Z.log2 (Zpos p) + 1.
Proof.
  induction p as [p IH|p IH|]; simpl digits2_pos.
  - rewrite Pos2Z.inj_succ, IH.
    change (Zpos p~1) with (2 * Zpos p + 1). rewrite Z.log2_succ_double by lia. lia.
  - rewrite Pos2Z.inj_succ, IH.
    change (Zpos p~0) with (2 * Zpos p). rewrite Z.log2_double by lia. lia.
  - reflexivity.
Qed.

Lemma iter_xO_mul m k : Zpos (Pos.iter xO m k) = Zpos m * 2 ^ Zpos k.
Proof.
  revert m. induction k as [k IH|k IH|]; intros m; simpl Pos.iter.
  - rewrite Pos2Z.inj_xO, !IH.
    replace (Zpos k~1) with (1 + Zpos k + Zpos k) by lia.
    rewrite !Z.pow_add_r by lia. lia.
  - rewrite !IH. replace (Zpos k~0) with (Zpos k + Zpos k) by lia.
    rewrite Z.pow_add_r by lia. lia.
  - lia.
Qed.

Lemma shr_exact k : ∀ m,
  SpecFloat.iter_pos shr_1 k (Build_shr_record (Zpos (Pos.iter xO m k)) false false)
  = Build_shr_record (Zpos m) false false.
Proof.
  induction k as [k IH|k IH|]; intros m; simpl.
  - by rewrite !IH.
  - by rewrite !IH.
  - reflexivity.
Qed.

Lemma digits_pos p : 1 ≤ digits p.
Proof. unfold digits. pose proof (Z.log2_nonneg (Zpos p)). lia. Qed.

Lemma digits_shift m k n :
  0 ≤ k → Zpos n = Zpos m * 2 ^ k → digits n = digits m + k.
Proof.
  intros Hk Hn. unfold digits. rewrite Hn, Z.log2_mul_pow2 by lia. lia.
Qed.

(** No bit has to go: the mantissa is kept as it is. *)
Lemma round_aux_keep s mx ex :
  fexp prec emax (digits mx + ex) ≤ ex → ex ≤ emax - prec →
  binary_round_aux prec emax s (Zpos mx) ex loc_Exact = S754_finite s mx ex.
Proof.
  intros Hf He. unfold binary_round_aux, shr_fexp, Zdigits2.
  rewrite digits2_pos_log2. fold (digits mx).
  assert (shr (shr_record_of_loc (Zpos mx) loc_Exact) ex
            (fexp prec emax (digits mx + ex) - ex)
          = (Build_shr_record (Zpos mx) false false, ex)) as ->.
  { unfold shr. destruct (fexp prec emax (digits mx + ex) - ex) eqn:Hd; try done. lia. }
  cbn [shr_m loc_of_shr_record round_nearest_even Zdigits2].
  rewrite digits2_pos_log2. fold (digits mx).
  assert (shr (shr_record_of_loc (Zpos mx) loc_Exact) ex
            (fexp prec emax (digits mx + ex) - ex)
          = (Build_shr_record (Zpos mx) false false, ex)) as ->.
  { unfold shr. destruct (fexp prec emax (digits mx + ex) - ex) eqn:Hd; try done. lia. }
  cbn [shr_m]. destruct (Z.leb_spec ex (emax - prec)); [done|lia].
Qed.

(** The [k] low bits that go are all zero. *)
Lemma round_aux_shift s m k ex :
  fexp prec emax (digits (Pos.iter xO m k) + ex) - ex = Zpos k →
  ex + Zpos k ≤ emax - prec →
  binary_round_aux prec emax s (Zpos (Pos.iter xO m k)) ex loc_Exact
  = S754_finite s m (ex + Zpos k).
Proof.
  intros Hf He. unfold binary_round_aux, shr_fexp, Zdigits2.
  rewrite digits2_pos_log2. fold (digits (Pos.iter xO m k)). rewrite Hf.
  cbn [shr shr_record_of_loc]. rewrite shr_exact.
  cbn [shr_m loc_of_shr_record round_nearest_even Zdigits2].
  rewrite digits2_pos_log2. fold (digits m).
  assert (digits (Pos.iter xO m k) = digits m + Zpos k) as Hd.
  { apply digits_shift; [lia|]. apply iter_xO_mul. }
  assert (fexp prec emax (digits m + (ex + Zpos k)) - (ex + Zpos k) = 0) as ->.
  { rewrite Hd in Hf. replace (digits m + (ex + Zpos k)) with (digits m + Zpos k + ex) by lia.
    lia. }
  cbn [shr shr_m]. destruct (Z.leb_spec (ex + Zpos k) (emax - prec)); [done|lia].
Qed.

Lemma norm_val n : digits n ≤ prec → Zpos (norm n) = Zpos n * 2 ^ (prec - digits n).
Proof.
  intros Hd. unfold norm. rewrite Z2Pos.id; [done|].
  apply Z.mul_pos_pos; [lia|]. apply Z.pow_pos_nonneg; lia.
Qed.

Lemma fexp_normal x : -1021 ≤ x → fexp prec emax x = x - prec.
Proof. unfold fexp, SpecFloat.emin, prec, emax. lia. Qed.

Lemma round_aux_exact s n j mx e :
  digits n ≤ prec → 0 ≤ j → Zpos mx = Zpos n * 2 ^ j →
  prec ≤ digits n + j →
  -1021 ≤ digits n + j + e → digits n + j + e ≤ emax →
  binary_round_aux prec emax s (Zpos mx) e loc_Exact
  = S754_finite s (norm n) (digits n + j + e - prec).
Proof.
  intros Hn Hj Hmx Hd Hlo Hhi.
  pose proof (digits_shift n j mx Hj Hmx) as Hdm.
  destruct (digits n + j - prec) as [|k|k] eqn:Hk; [| |lia].
  - assert (mx = norm n) as ->.
    { apply Pos2Z.inj. rewrite norm_val, Hmx by done. f_equal. f_equal. lia. }
    replace (digits n + j + e - prec) with e by lia.
    apply round_aux_keep.
    + rewrite Hdm, fexp_normal by lia. lia.
    + lia.
  - assert (mx = Pos.iter xO (norm n) k) as ->.
    { apply Pos2Z.inj. rewrite iter_xO_mul, norm_val, Hmx by done.
      rewrite <- Z.mul_assoc, <- Z.pow_add_r by (pose proof (digits_pos n); lia).
      f_equal. f_equal. lia. }
    replace (digits n + j + e - prec) with (e + Zpos k) by lia.
    apply round_aux_shift.
    + rewrite Hdm, fexp_normal by lia. lia.
    + lia.
Qed.

Lemma round_exact s n j mx e :
  digits n ≤ prec → 0 ≤ j → Zpos mx = Zpos n * 2 ^ j →
  -1021 ≤ digits n + j + e → digits n + j + e ≤ emax →
  binary_round prec emax s mx e
  = S754_finite s (norm n) (digits n + j + e - prec).
Proof.
  intros Hn Hj Hmx Hlo Hhi.
  pose proof (digits_shift n j mx Hj Hmx) as Hdm.
  unfold binary_round, shl_align. rewrite digits2_pos_log2. fold (digits mx).
  rewrite Hdm, fexp_normal by lia.
  destruct (digits n + j + e - prec - e) as [|k|k] eqn:Hk.
  - apply (round_aux_exact s n j); try done; lia.
  - apply (round_aux_exact s n j); try done; lia.
  - replace (digits n + j + e - prec) with (digits n + (j + Zpos k) + (digits n + j + e - prec) - prec) at 2 by lia.
    apply (round_aux_exact s n (j + Zpos k)); try lia.
    rewrite iter_xO_mul, Hmx, Z.pow_add_r by lia. lia.
Qed.

Lemma digits_bound p : Zpos p < 2 ^ prec → digits p ≤ prec.
Proof.
  intros H. unfold digits. apply Z.log2_lt_pow2 in H; lia.
Qed.

Lemma float_of_int_exact p :
  Zpos p < 2 ^ prec →
  float_of_int (Zpos p) = Ok (S754_finite false (norm p) (digits p - prec)).
Proof.
  intros Hp. pose proof (digits_bound p Hp). pose proof (digits_pos p).
  unfold float_of_int, binary_normalize.
  rewrite (round_exact false p 0 p 0); try done; try (unfold prec, emax in *; lia).
  do 2 f_equal. lia.
Qed.

Lemma div_core_by_2 p :
  digits p ≤ prec →
  SFdiv_core_binary prec emax (Zpos p) 0 2 0
  = (Zpos p * 2 ^ (prec + 1 - digits p), digits p - 2 - prec, loc_Exact).
Proof.
  intros Hd. pose proof (digits_pos p) as Hd1.
  unfold SFdiv_core_binary, Zdigits2.
  rewrite digits2_pos_log2. fold (digits p).
  change (Zpos (digits2_pos 2)) with 2.
  replace (digits p + 0 - (2 + 0)) with (digits p - 2) by lia.
  rewrite fexp_normal by (unfold prec in *; lia).
  replace (Z.min (digits p - 2 - prec) (0 - 0)) with (digits p - 2 - prec)
    by (unfold prec in *; lia).
  destruct (0 - 0 - (digits p - 2 - prec)) as [|k|k] eqn:Hk;
    [unfold prec in *; lia| |unfold prec in *; lia].
  rewrite Z.shiftl_mul_pow2 by lia.
  assert (Zpos p * 2 ^ Zpos k = (Zpos p * 2 ^ (Zpos k - 1)) * 2) as Hq.
  { replace (Zpos k) with (Zpos k - 1 + 1) at 1 by lia.
    rewrite Z.pow_add_r by lia. change (2 ^ 1) with 2. lia. }
  pose proof (Z.div_eucl_eq (Zpos p * 2 ^ Zpos k) 2 ltac:(lia)) as Heq.
  pose proof (Z.mod_pos_bound (Zpos p * 2 ^ Zpos k) 2 ltac:(lia)) as Hmod.
  unfold Z.modulo in Hmod.
  change IntDef.Z.div_eucl with Z.div_eucl.
  destruct (Z.div_eucl (Zpos p * 2 ^ Zpos k) 2) as [q r].
  assert (r = 0 ∧ q = Zpos p * 2 ^ (Zpos k - 1)) as [-> ->].
  { revert Hq Heq. generalize (Zpos p * 2 ^ Zpos k) (Zpos p * 2 ^ (Zpos k - 1)).
    intros X Y HX HY. lia. }
  change (new_location 2 0) with loc_Exact.
  replace (prec + 1 - digits p) with (Zpos k - 1) by lia. reflexivity.
Qed.

Lemma int_truediv_2_exact h p :
  Z.abs h = Zpos p → Zpos p < 2 ^ prec →
  int_truediv h 2 = Ok (S754_finite (h <? 0) (norm p) (digits p - prec - 1)).
Proof.
  intros Hh Hp. pose proof (digits_bound p Hp) as Hd. pose proof (digits_pos p) as Hd1.
  unfold int_truediv. change (2 =? 0) with false. cbn [xorb]. change (2 <? 0) with false.
  rewrite xorb_false_r. change (Z.abs 2) with 2. rewrite Hh.
  rewrite div_core_by_2 by done.
  assert (0 < Zpos p * 2 ^ (prec + 1 - digits p)) as Hpos.
  { apply Z.mul_pos_pos; [lia|]. apply Z.pow_pos_nonneg; lia. }
  destruct (Zpos p * 2 ^ (prec + 1 - digits p)) as [|mq|mq] eqn:Hmq; try lia.
  rewrite (round_aux_exact _ p (prec + 1 - digits p) mq); try done;
    try (unfold prec, emax in *; lia).
  replace (digits p + (prec + 1 - digits p) + (digits p - 2 - prec) - prec)
    with (digits p - prec - 1) by lia.
  destruct h; [done| |]; reflexivity.
Qed.

Lemma shl_align_fst m e e' :
  e' ≤ e → Zpos (fst (shl_align m e e')) = Zpos m * 2 ^ (e - e').
Proof.
  intros He. unfold shl_align. destruct (e' - e) as [|d|d] eqn:Hd; simpl fst.
  - replace (e - e') with 0 by lia. lia.
  - lia.
  - rewrite iter_xO_mul. do 2 f_equal. lia.
Qed.

Lemma pow2_scaled (v t c : Z) :
  0 ≤ t → (inject_Z (v * 2 ^ t) * pow2 (- t - c) == inject_Z v * pow2 (- c))%Q.
Proof.
  intros Ht. unfold pow2. rewrite inject_Z_mult, Zpower_Qpower by done.
  rewrite <- Qmult_assoc. apply Qmult_comp; [reflexivity|].
  rewrite <- Qpower_plus by done. apply Qpower_comp; [reflexivity|]. lia.
Qed.

Lemma norm_value s p c :
  digits p ≤ prec →
  ∃ q, float_value (S754_finite s (norm p) (digits p - prec - c)) = Some q ∧
       (q == inject_Z (if s then Zneg p else Zpos p) * pow2 (- c))%Q.
Proof.
  intros Hd. eexists. split; [reflexivity|].
  replace (digits p - prec - c) with (- (prec - digits p) - c) by lia.
  rewrite <- (pow2_scaled _ (prec - digits p)) by lia.
  apply Qmult_comp; [|reflexivity].
  destruct s.
  - change (Zneg (norm p)) with (- Zpos (norm p)). rewrite norm_val by done.
    change (Zneg p) with (- Zpos p). f_equiv. lia.
  - by rewrite norm_val.
Qed.

Lemma float_sub_exact pz h ph :
  let z := Zpos pz in
  z < 2 ^ prec → Z.abs h = Zpos ph → Zpos ph < 2 ^ prec →
  Z.abs (2 * z - h) < 2 ^ prec →
  float_sub (S754_finite false (norm pz) (digits pz - prec))
            (S754_finite (h <? 0) (norm ph) (digits ph - prec - 1))
  = match 2 * z - h with
    | 0 => S754_zero false
    | Zpos pn => S754_finite false (norm pn) (digits pn - prec - 1)
    | Zneg pn => S754_finite true (norm pn) (digits pn - prec - 1)
    end.
Proof.
  intros z Hz Hh Hph HN.
  pose proof (digits_bound pz Hz) as Hdz. pose proof (digits_pos pz) as Hdz1.
  pose proof (digits_bound ph Hph) as Hdh. pose proof (digits_pos ph) as Hdh1.
  unfold float_sub, SFsub.
  set (ea := digits pz - prec). set (eb := digits ph - prec - 1).
  set (ez := Z.min ea eb).
  assert (ez ≤ ea ∧ ez ≤ eb ∧ ez ≤ -1) as (Hza & Hzb & Hz1)
    by (unfold ez, ea, eb, prec in *; lia).
  set (g := -1 - ez).
  assert (Zpos (fst (shl_align (norm pz) ea ez)) = 2 * z * 2 ^ g) as ->.
  { rewrite shl_align_fst, norm_val by done.
    rewrite <- Z.mul_assoc, <- Z.pow_add_r by (unfold ea, prec in *; lia).
    replace (prec - digits pz + (ea - ez)) with (1 + g) by (unfold ea, g; lia).
    rewrite Z.pow_add_r by (unfold g; lia). unfold z. change (2 ^ 1) with 2. lia. }
  assert (cond_Zopp (h <? 0) (Zpos (fst (shl_align (norm ph) eb ez))) = h * 2 ^ g) as ->.
  { rewrite shl_align_fst, norm_val by done.
    rewrite <- Z.mul_assoc, <- Z.pow_add_r by (unfold eb, prec in *; lia).
    replace (prec - digits ph + (eb - ez)) with g by (unfold eb, g; lia).
    rewrite <- Hh. unfold cond_Zopp.
    destruct (Z.ltb_spec h 0); [rewrite Z.abs_neq by lia|rewrite Z.abs_eq by lia]; lia. }
  cbn [cond_Zopp].
  replace (2 * z * 2 ^ g - h * 2 ^ g) with ((2 * z - h) * 2 ^ g) by lia.
  assert (0 < 2 ^ g) as Hg by (apply Z.pow_pos_nonneg; unfold g; lia).
  destruct (2 * z - h) as [|pn|pn] eqn:HNe.
  - reflexivity.
  - assert (digits pn ≤ prec) as Hdn by (apply digits_bound; lia).
    pose proof (digits_pos pn) as Hdn1.
    destruct (Zpos pn * 2 ^ g) as [|m|m] eqn:Hm; try lia.
    unfold binary_normalize.
    rewrite (round_exact false pn g m ez); try done;
      try (unfold g, prec, emax in *; lia).
    f_equal. unfold g. lia.
  - assert (digits pn ≤ prec) as Hdn by (apply digits_bound; lia).
    pose proof (digits_pos pn) as Hdn1.
    destruct (Zneg pn * 2 ^ g) as [|m|m] eqn:Hm; try lia.
    unfold binary_normalize.
    rewrite (round_exact true pn g m ez); try done;
      try (unfold g, prec, emax in *; lia).
    f_equal. unfold g. lia.
Qed.

Lemma half_value (v : Z) : (inject_Z v * pow2 (- 1) == inject_Z v / 2)%Q.
Proof. reflexivity. Qed.

Lemma formula_du_core z h :
  0 < z < 2 ^ prec → Z.abs h < 2 ^ prec → Z.abs (2 * z - h) < 2 ^ prec →
  ∃ f q,
    (half ← int_truediv h 2 ; lhs' ← float_of_int z ; Ok (float_sub lhs' half)) = Ok f ∧
    float_value f = Some q ∧
    (q == inject_Z z - inject_Z h / 2)%Q.
Proof.
  intros Hz Hh HN. destruct z as [|pz|pz]; try lia.
  rewrite float_of_int_exact by lia.
  assert (inject_Z (2 * Zpos pz - h) / 2 == inject_Z (Zpos pz) - inject_Z h / 2)%Q as Hval.
  { unfold Zminus. rewrite inject_Z_plus, inject_Z_mult, inject_Z_opp. field. }
  destruct (Z.abs h) as [|ph|ph] eqn:Hah; try lia.
  - assert (h = 0) as -> by lia.
    change (int_truediv 0 2) with (Ok (S754_zero false)). cbn [mbind result_bind].
    change (float_sub ?a (S754_zero false)) with a.
    destruct (norm_value false pz 0) as (q & Hq & Hqv); [apply digits_bound; lia|].
    replace (digits pz - prec - 0) with (digits pz - prec) in Hq by lia.
    eexists _, q. split; [reflexivity|]. split; [done|].
    rewrite Hqv. change (pow2 (-0)) with 1%Q. change (inject_Z 0) with 0%Q. field.
  - rewrite (int_truediv_2_exact h ph) by (done || lia). cbn [mbind result_bind].
    rewrite (float_sub_exact pz h ph) by (done || lia).
    destruct (2 * Zpos pz - h) as [|pn|pn] eqn:HNe.
    + eexists _, 0%Q. split; [reflexivity|]. split; [done|].
      rewrite <- Hval. reflexivity.
    + destruct (norm_value false pn 1) as (q & Hq & Hqv); [apply digits_bound; lia|].
      eexists _, q. split; [reflexivity|]. split; [done|].
      by rewrite Hqv, half_value, <- Hval.
    + destruct (norm_value true pn 1) as (q & Hq & Hqv); [apply digits_bound; lia|].
      eexists _, q. split; [reflexivity|]. split; [done|].
      by rewrite Hqv, half_value, <- Hval.
Qed.

(** C3, on the range where binary64 is exact: for non-negative counts
    below 2^51 the function returns exactly 1 + C - (H + X - N)/2, a
    half-integer that is not truncated; for the counts of C2H6O it returns
    0 (also when they are read from the formula string). *)
Theorem formula_du_exact :
  (∀ nC nH nN nX,
     0 ≤ nC < 2 ^ 51 → 0 ≤ nH < 2 ^ 51 → 0 ≤ nN < 2 ^ 51 → 0 ≤ nX < 2 ^ 51 →
     ∃ f q,
       formula_du nC nH nN nX = Ok f ∧
       float_value f = Some q ∧
       (q == inject_Z (1 + nC) - inject_Z (nH + nX - nN) / 2)%Q) ∧
  formula_du 2 6 0 0 = Ok (S754_zero false) ∧
  du_of_formula (py "C2H6O") = Ok (S754_zero false).
Proof.
  split; [|split; vm_compute; reflexivity].
  intros nC nH nN nX HC HH HN HX. unfold formula_du.
  apply formula_du_core; unfold prec; lia.
Qed.

Lemma formula_du_exact_witness :
  ∃ f q,
    formula_du 2 6 0 0 = Ok f ∧
    float_value f = Some q ∧
    (q == inject_Z (1 + 2) - inject_Z (6 + 0 - 0) / 2)%Q.
Proof. apply (proj1 formula_du_exact 2 6 0 0); lia. Defined.

(** C3 does not extend to all non-negative counts: where binary64 has to
    round, the result is not the exact value.  With 2^53 carbons and
    nothing else the exact value is 2^53 + 1 and the function returns 2^53. *)
Lemma formula_du_inexact_at_2_53 :
  ∃ f q,
    formula_du (2 ^ 53) 0 0 0 = Ok f ∧
    float_value f = Some q ∧
    ¬ (q == inject_Z (1 + 2 ^ 53) - inject_Z (0 + 0 - 0) / 2)%Q.
Proof.
  eexists _, _. split; [vm_compute; reflexivity|]. split; [reflexivity|].
  vm_compute. discriminate.
Qed.

(** * Further properties *)

(** ** Teaching bullets *)

(** The scan as a loop over the table. *)
Lemma scan_loop (name : pystr) (l : list (pystr * pystr)) : ∀ acc,
  fold_left (λ b kv, if contains kv.1 name then b ++ [kv.2] else b) l acc
  = acc ++ map snd (List.filter (λ kv : pystr * pystr, contains kv.1 name) l).
Proof.
  induction l as [|[k s] l IH]; intros acc; cbn [fold_left List.filter map fst snd].
  - by rewrite app_nil_r.
  - rewrite IH. destruct (contains k name); cbn [map snd]; [|done].
    by rewrite <- app_assoc.
Qed.

Lemma make_bullets_table_scan name :
  name ≠ [] → make_bullets_from_name name = table_scan name.
Proof.
  intros Hne. destruct name as [|c n]; [done|].
  unfold table_scan.
  rewrite <- (app_nil_l (map snd _)), <- scan_loop. reflexivity.
Qed.

Lemma table_scan_length name : (length (table_scan name) <= 14)%nat.
Proof.
  unfold table_scan. rewrite length_map.
  etransitivity; [apply List.filter_length_le|]. reflexivity.
Qed.

Lemma is_prefix_app a b s : is_prefix (a ++ b) s = true → is_prefix a s = true.
Proof.
  revert s. induction a as [|x a IH]; intros s; [done|].
  destruct s as [|y s]; simpl; [done|].
  rewrite !andb_true_iff. intros [? ?]. eauto.
Qed.

Lemma contains_prefix_part a b s : contains (a ++ b) s = true → contains a s = true.
Proof.
  induction s as [|y s IH]; simpl; rewrite !orb_true_iff.
  - intros [H|H]; [|done]. left. by apply (is_prefix_app a b).
  - intros [H|H]; [left; by apply (is_prefix_app a b)|right; auto].
Qed.

Lemma is_prefix_contains k s : is_prefix k s = true → contains k s = true.
Proof. intros H. destruct s; simpl in *; rewrite H; done. Qed.

Lemma contains_tail x k s : contains (x :: k) s = true → contains k s = true.
Proof.
  induction s as [|y s IH]; [done|].
  cbn [contains is_prefix]. rewrite !orb_true_iff, andb_true_iff.
  intros [[_ H]|H].
  - right. by apply is_prefix_contains.
  - right. auto.
Qed.

Lemma filter_sublist {A} (f : A → bool) (l : list A) : List.filter f l `sublist_of` l.
Proof.
  induction l as [|x l IH]; simpl; [constructor|].
  destruct (f x); by constructor.
Qed.

Lemma table_scan_elem k s name :
  (k, s) ∈ bullet_vocabulary → contains k name = true → s ∈ table_scan name.
Proof.
  intros Hin Hk. unfold table_scan. apply list_elem_of_fmap. exists (k, s).
  split; [done|]. apply list_elem_of_In, filter_In. split; [by apply list_elem_of_In|done].
Qed.

(** X1: [make_bullets_from_name] is a scan of the keyword table: for a
    non-empty name it returns the sentences of the keywords that occur in
    the name, in table order (not in order of occurrence); so the bullets
    are a sub-list of the fourteen sentences, none twice, and an empty name
    gives none. *)
Theorem make_bullets_is_table_scan name :
  make_bullets_from_name name = match name with [] => [] | _ => table_scan name end ∧
  make_bullets_from_name name `sublist_of` map snd bullet_vocabulary ∧
  (length (make_bullets_from_name name) <= 14)%nat.
Proof.
  assert (make_bullets_from_name name
          = match name with [] => [] | _ => table_scan name end) as Heq.
  { destruct name as [|c n]; [done|]. by apply make_bullets_table_scan. }
  split; [done|]. rewrite Heq. destruct name as [|c n].
  - split; [apply sublist_nil_l|simpl; lia].
  - split; [|apply table_scan_length].
    unfold table_scan. apply (fmap_sublist snd), filter_sublist.
Qed.

(** X2: the keywords overlap.  A name that contains "meth" also gets the
    "eth- (2 carbons)" bullet, and a name that contains "methyl" gets the
    methyl bullet together with both parent-chain bullets. *)
Theorem methyl_brings_meth_and_eth name :
  (contains (py "meth") name = true →
     py "Parent chain includes: meth- (1 carbon)." ∈ make_bullets_from_name name ∧
     py "Parent chain includes: eth- (2 carbons)." ∈ make_bullets_from_name name) ∧
  (contains (py "methyl") name = true →
     py "Has a methyl (-CH" ++ utf 0x2083 ++ py ") substituent." ∈ make_bullets_from_name name ∧
     py "Parent chain includes: meth- (1 carbon)." ∈ make_bullets_from_name name ∧
     py "Parent chain includes: eth- (2 carbons)." ∈ make_bullets_from_name name).
Proof.
  assert (∀ k, contains (109%N :: k) name = true →
               make_bullets_from_name name = table_scan name) as Hscan.
  { intros k Hk. apply make_bullets_table_scan. by intros ->. }
  assert (contains (py "meth") name = true →
          py "Parent chain includes: meth- (1 carbon)." ∈ make_bullets_from_name name ∧
          py "Parent chain includes: eth- (2 carbons)." ∈ make_bullets_from_name name)
    as Hmeth.
  { intros Hk. rewrite (Hscan _ Hk). split.
    - apply (table_scan_elem (py "meth")); [|done].
      unfold bullet_vocabulary. repeat first [by left | right].
    - apply (table_scan_elem (py "eth")).
      + unfold bullet_vocabulary. repeat first [by left | right].
      + by apply (contains_tail 109%N). }
  split; [done|]. intros Hk.
  assert (contains (py "meth") name = true) as Hm
    by (by apply (contains_prefix_part (py "meth") (py "yl"))).
  split; [|by apply Hmeth].
  rewrite (Hscan _ Hk). apply (table_scan_elem (py "methyl")); [|done].
  unfold bullet_vocabulary. repeat first [by left | right].
Qed.

Lemma methyl_brings_meth_and_eth_witness :
  py "Parent chain includes: eth- (2 carbons)."
    ∈ make_bullets_from_name (py "2-methylpropane").
Proof.
  apply (proj2 (methyl_brings_meth_and_eth (py "2-methylpropane"))).
  vm_compute. reflexivity.
Defined.

(** ** More on the name translator *)

Lemma lstrip_pad pre s : forallb is_space pre = true → lstrip (pre ++ s) = lstrip s.
Proof.
  induction pre as [|a pre IH]; simpl; [done|].
  rewrite andb_true_iff. intros [-> ?]. auto.
Qed.

Lemma lstrip_fixed c s : is_space c = false → lstrip (c :: s) = c :: s.
Proof. intros H. simpl. by rewrite H. Qed.

Lemma lstrip_app_nonblank s t :
  lstrip s ≠ [] → lstrip (s ++ t) = lstrip s ++ t.
Proof.
  induction s as [|a s IH]; simpl; [done|].
  destruct (is_space a); [auto|done].
Qed.

Lemma rstrip_pad s post : forallb is_space post = true → rstrip (s ++ post) = rstrip s.
Proof.
  intros H. unfold rstrip. rewrite rev_app_distr, lstrip_pad; [done|].
  rewrite forallb_forall in *. intros x Hx. apply H. by apply in_rev.
Qed.

(** White space around a text does not survive [strip]. *)
Lemma strip_pad pre s post :
  forallb is_space pre = true → forallb is_space post = true →
  strip (pre ++ s ++ post) = strip s.
Proof.
  intros Hpre Hpost. unfold strip. rewrite lstrip_pad by done.
  destruct (lstrip s) as [|c t] eqn:Hs.
  - assert (forallb is_space s = true) as Hall.
    { clear -Hs. induction s as [|a s IH]; simpl in *; [done|].
      destruct (is_space a); [auto|done]. }
    rewrite lstrip_blank; [done|]. rewrite forallb_app. by rewrite Hall, Hpost.
  - rewrite lstrip_app_nonblank by (by rewrite Hs). rewrite Hs.
    by apply rstrip_pad.
Qed.

(** What [strip] leaves of a text that starts with a token. *)
Lemma strip_token smi rest :
  smi ≠ [] → no_space smi →
  ∃ r', strip (smi ++ rest) = smi ++ r' ∧
        (r' = [] ∨ ∃ c t r, r' = c :: t ∧ rest = c :: r).
Proof.
  intros Hne Hns. unfold strip.
  destruct smi as [|x smi]; [done|]. clear Hne.
  assert (is_space x = false) as Hx by (by inversion Hns).
  change ((x :: smi) ++ rest) with (x :: (smi ++ rest)).
  rewrite lstrip_fixed by done. unfold rstrip.
  change (x :: smi ++ rest) with ((x :: smi) ++ rest). rewrite rev_app_distr.
  assert (∃ y v, rev (x :: smi) = y :: v ∧ is_space y = false) as (y & v & Hrev & Hy).
  { destruct (rev (x :: smi)) as [|y v] eqn:Hr.
    - apply (f_equal (@length _)) in Hr. rewrite length_rev in Hr. done.
    - exists y, v. split; [done|].
      assert (y ∈ x :: smi) as Hin.
      { apply list_elem_of_In, in_rev. rewrite Hr. by left. }
      unfold no_space in Hns. rewrite Forall_forall in Hns. auto. }
  rewrite Hrev.
  assert (∀ u, ∃ pre u', u = pre ++ u' ∧ lstrip (u ++ y :: v) = u' ++ y :: v) as Hl.
  { induction u as [|a u IH]; simpl.
    - exists [], []. by rewrite Hy.
    - destruct (is_space a).
      + destruct IH as (pre & u' & -> & ->). by exists (a :: pre), u'.
      + by exists [], (a :: u). }
  destruct (Hl (rev rest)) as (pre & u' & Hu & ->).
  rewrite <- Hrev, rev_app_distr, rev_involutive.
  exists (rev u'). split; [done|].
  apply (f_equal (@rev _)) in Hu. rewrite rev_involutive, rev_app_distr in Hu.
  destruct (rev u') as [|c t]; [by left|right]. rewrite Hu. by exists c, t, (t ++ rev pre).
Qed.

Lemma splitlines_go_run s : ∀ cur r,
  Forall (λ c, is_linebreak c = false) s →
  splitlines_go cur (s ++ r) = splitlines_go (rev s ++ cur) r.
Proof.
  induction s as [|c s IH]; intros cur r Hs; [done|].
  inversion Hs as [|? ? Hc Hs']; subst. simpl. rewrite Hc, IH by done.
  by rewrite <- app_assoc.
Qed.

Lemma splitlines_go_first_line r : ∀ cur,
  cur ≠ [] →
  ∃ l ls, splitlines_go cur r = (rev cur ++ l) :: ls ∧
          (l = [] ∨ ∃ c t r', l = c :: t ∧ r = c :: r' ∧ is_linebreak c = false).
Proof.
  induction r as [|c r IH]; intros cur Hcur; simpl.
  - destruct cur; [done|]. exists [], []. rewrite app_nil_r. by split; [|left].
  - destruct (is_linebreak c) eqn:Hc.
    + eexists [], _. rewrite app_nil_r. by split; [|left].
    + destruct (IH (c :: cur)) as (l & ls & -> & _); [done|].
      exists (c :: l), ls. simpl. rewrite <- app_assoc. split; [done|].
      right. by exists c, l, r.
Qed.

Lemma split_go_run s : ∀ cur r,
  no_space s → split_go cur (s ++ r) = split_go (rev s ++ cur) r.
Proof.
  induction s as [|c s IH]; intros cur r Hs; [done|].
  inversion Hs as [|? ? Hc Hs']; subst. simpl. rewrite Hc, IH by done.
  by rewrite <- app_assoc.
Qed.

Lemma not_space_not_linebreak c : is_space c = false → is_linebreak c = false.
Proof.
  intros H. destruct (is_linebreak c) eqn:Hl; [|done].
  apply linebreak_is_space in Hl. congruence.
Qed.

(** X3: a response that starts with a SMILES (non-empty, no white space)
    which is followed by nothing or by white space (a tab and further
    fields, a line end, more lines) yields exactly that SMILES. *)
Theorem extract_smiles_first_field smi rest :
  smi ≠ [] → no_space smi →
  (rest = [] ∨ ∃ c r, rest = c :: r ∧ is_space c = true) →
  extract_smiles (smi ++ rest) = Ok smi.
Proof.
  intros Hne Hns Hrest. unfold extract_smiles.
  destruct (strip_token smi rest Hne Hns) as (r' & -> & Hr').
  assert (Forall (λ c, is_linebreak c = false) smi) as Hnl.
  { unfold no_space in Hns. rewrite Forall_forall in *.
    intros c Hc. by apply not_space_not_linebreak, Hns. }
  assert (rev smi ≠ []) as Hrev.
  { intros H. apply (f_equal (@rev _)) in H. by rewrite rev_involutive in H. }
  unfold splitlines. rewrite splitlines_go_run, app_nil_r by done.
  destruct (splitlines_go_first_line r' (rev smi) Hrev) as (l & ls & -> & Hl).
  rewrite rev_involutive. cbn [index0 mbind result_bind].
  unfold split. rewrite split_go_run, app_nil_r by done.
  assert (∃ toks, split_go (rev smi) l = smi :: toks) as [toks ->].
  { destruct Hl as [->|(c & t & r'' & -> & -> & Hc)].
    - simpl. destruct (rev smi) eqn:Hs; [done|]. rewrite <- Hs, rev_involutive. eauto.
    - assert (is_space c = true) as Hsp.
      { destruct Hr' as [?|(c' & t' & r0 & [= <- <-] & ->)]; [done|].
        destruct Hrest as [?|(c'' & r1 & [= <- <-] & ?)]; done. }
      simpl. rewrite Hsp. destruct (rev smi) eqn:Hs; [done|].
      rewrite <- Hs, rev_involutive. eauto. }
  cbn [index0 mbind result_bind]. by destruct smi.
Qed.

Lemma extract_smiles_first_field_witness :
  extract_smiles (py "CCO" ++ 9%N :: py "ethanol" ++ [newline]) = Ok (py "CCO").
Proof.
  apply extract_smiles_first_field.
  - vm_compute. discriminate.
  - vm_compute. repeat constructor.
  - right. eexists _, _. split; [reflexivity|]. vm_compute. reflexivity.
Defined.

Section TranslatorMore.
Context `{E : Externals}.

(** X4: white space before and after the name makes no difference to
    [name_to_smiles]: result and final world are the same. *)
Theorem name_to_smiles_ignores_padding pre name post w :
  forallb is_space pre = true → forallb is_space post = true →
  name_to_smiles (pre ++ name ++ post) w = name_to_smiles name w.
Proof.
  intros Hpre Hpost. unfold name_to_smiles, name_to_smiles_body.
  by rewrite strip_pad.
Qed.




End TranslatorMore.

Lemma name_to_smiles_ignores_padding_witness :
  name_to_smiles (py "  " ++ py "ethanol" ++ [newline]) toy_world
  = name_to_smiles (py "ethanol") toy_world.
Proof. apply name_to_smiles_ignores_padding; vm_compute; reflexivity. Defined.


(** ** More on the formula regex *)

Lemma upper_not_lower c : is_upper c = true → is_lower c = false.
Proof.
  unfold is_upper, is_lower, in_range. rewrite andb_true_iff, andb_false_iff, !N.leb_le, !N.leb_gt. lia.
Qed.

Lemma upper_not_digit c : is_upper c = true → is_digit c = false.
Proof.
  unfold is_upper, is_digit, in_range. rewrite andb_true_iff, andb_false_iff, !N.leb_le, !N.leb_gt. lia.
Qed.

Lemma digit_not_lower c : is_digit c = true → is_lower c = false.
Proof.
  unfold is_digit, is_lower, in_range. rewrite andb_true_iff, andb_false_iff, !N.leb_le, !N.leb_gt. lia.
Qed.

Lemma take_lower_app s g : starts_symbol g → take_lower (s ++ g) = take_lower s.
Proof.
  destruct s as [|c s]; [|done]. destruct g as [|c g]; [done|].
  simpl. intros H. by rewrite (upper_not_lower c H).
Qed.

Lemma drop_lower_app s g : starts_symbol g → drop_lower (s ++ g) = drop_lower s ++ g.
Proof.
  destruct s as [|c s]; simpl; [|by destruct (is_lower c)].
  destruct g as [|c g]; [done|]. simpl. intros H. by rewrite (upper_not_lower c H).
Qed.

Lemma take_digits_app s g : starts_symbol g → take_digits (s ++ g) = take_digits s.
Proof.
  intros Hg. induction s as [|c s IH]; simpl.
  - destruct g as [|c g]; [done|]. simpl in *. by rewrite (upper_not_digit c Hg).
  - destruct (is_digit c); [by rewrite IH|done].
Qed.

Lemma drop_digits_app s g : starts_symbol g → drop_digits (s ++ g) = drop_digits s ++ g.
Proof.
  intros Hg. induction s as [|c s IH]; simpl.
  - destruct g as [|c g]; [done|]. simpl in *. by rewrite (upper_not_digit c Hg).
  - destruct (is_digit c); [by rewrite IH|done].
Qed.

Lemma findall_cons c rest :
  findall (c :: rest) =
    if is_upper c
    then (c :: take_lower rest, take_digits (drop_lower rest))
           :: findall (drop_digits (drop_lower rest))
    else findall rest.
Proof. by simp findall. Qed.

(** Matches do not straddle a point where a symbol starts. *)
Lemma findall_concat f g :
  starts_symbol g → findall (f ++ g) = findall f ++ findall g.
Proof.
  intros Hg. funelim (findall f); [by simp findall|].
  change ((c :: rest) ++ g) with (c :: (rest ++ g)).
  rewrite !findall_cons. destruct (is_upper c) eqn:Hc.
  - rewrite take_lower_app, !drop_lower_app, take_digits_app, drop_digits_app by done.
    cbn [app]. f_equal. auto.
  - auto.
Qed.

(** X6: the matches of a formula split at any point where the second
    part starts with an upper-case letter: they are the matches of the
    first part followed by those of the second. *)
Theorem findall_app f g :
  starts_symbol g → findall (f ++ g) = findall f ++ findall g.
Proof. intros Hg. rewrite findall_concat by done. reflexivity. Qed.

Lemma findall_app_witness :
  findall (py "C2H6" ++ py "O") = findall (py "C2H6") ++ findall (py "O").
Proof. apply findall_app. vm_compute. reflexivity. Defined.

Lemma dict_app_absent (p q : list (pystr * pystr)) (k : pystr) :
  k ∉ q.*1 → dict (p ++ q) !! k = dict p !! k.
Proof.
  intros Hk. unfold dict. rewrite fold_left_app. by apply dict_go_lookup_absent.
Qed.

Lemma get_app_absent (p q : list (pystr * pystr)) (k : pystr) :
  k ∉ q.*1 → get (dict (p ++ q)) k = get (dict p) k.
Proof. intros Hk. unfold get. by rewrite dict_app_absent. Qed.

(** X7: elements other than C, H, N, F, Cl, Br and I do not enter the
    degree of unsaturation: appending symbols none of which is one of the
    seven leaves it unchanged. *)
Theorem du_ignores_other_elements f g :
  starts_symbol g →
  Forall (λ k, k ∉ (findall g).*1) du_symbols →
  du_of_formula (f ++ g) = du_of_formula f.
Proof.
  intros Hg Hk. unfold du_of_formula. rewrite findall_concat by done.
  unfold du_symbols in Hk.
  repeat match type of Hk with
  | Forall _ (_ :: _) => apply Forall_cons in Hk as [? Hk]
  end.
  by rewrite !get_app_absent.
Qed.

Lemma du_ignores_other_elements_witness :
  du_of_formula (py "C2H6" ++ py "OS2") = du_of_formula (py "C2H6").
Proof.
  apply du_ignores_other_elements.
  - vm_compute. reflexivity.
  - vm_compute. repeat constructor;
      (intros H; repeat (apply elem_of_cons in H as [H|H]; [discriminate H|]);
       by apply elem_of_nil in H).
Defined.

(** Decimal numerals. *)
Lemma int_of_digits_go (s : pystr) : ∀ a,
  fold_left (λ acc c, 10 * acc + Z.of_N (c - 48)) s a
  = a * 10 ^ Z.of_nat (length s) + int_of_digits s.
Proof.
  unfold int_of_digits. induction s as [|c s IH]; intros a; simpl fold_left.
  - simpl. lia.
  - rewrite IH, (IH (10 * 0 + _)). rewrite length_cons, Nat2Z.inj_succ, Z.pow_succ_r by lia.
    lia.
Qed.

Lemma int_of_digits_cons c s :
  int_of_digits (c :: s) = Z.of_N (c - 48) * 10 ^ Z.of_nat (length s) + int_of_digits s.
Proof.
  unfold int_of_digits at 1. simpl fold_left. rewrite int_of_digits_go. lia.
Qed.

Lemma digit_char_value d : (d < 10)%N → (digit_char d - 48 = d)%N ∧ is_digit (digit_char d) = true.
Proof.
  intros Hd. unfold digit_char, is_digit, in_range. split; [lia|].
  rewrite andb_true_iff, !N.leb_le. lia.
Qed.

Lemma dec_go_spec fuel : ∀ n acc,
  (n < 2 ^ N.of_nat fuel)%N → all_digits acc →
  all_digits (dec_go fuel n acc) ∧
  (fuel ≠ O → dec_go fuel n acc ≠ []) ∧
  int_of_digits (dec_go fuel n acc)
    = Z.of_N n * 10 ^ Z.of_nat (length acc) + int_of_digits acc.
Proof.
  induction fuel as [|fuel IH]; intros n acc Hn Hacc.
  - simpl in *. assert (n = 0%N) as -> by lia. split; [done|]. split; [done|]. lia.
  - cbn [dec_go].
    pose proof (N.mod_lt n 10 ltac:(lia)) as Hmod.
    destruct (digit_char_value (n mod 10) Hmod) as [Hv Hd].
    assert (all_digits (digit_char (n mod 10) :: acc)) as Hacc' by (by constructor).
    pose proof (N.div_mod n 10 ltac:(lia)) as Hdm.
    destruct (N.eqb_spec (n / 10) 0) as [Hz|Hz].
    + split; [done|]. split; [done|].
      rewrite int_of_digits_cons, Hv. rewrite Hz in Hdm. lia.
    + assert (n / 10 < 2 ^ N.of_nat fuel)%N as Hlt.
      { rewrite Nat2N.inj_succ, N.pow_succ_r' in Hn.
        apply N.Div0.div_lt_upper_bound. lia. }
      destruct (IH (n / 10)%N _ Hlt Hacc') as (H1 & H2 & H3).
      split; [done|]. split.
      * intros _. destruct fuel; [simpl in Hlt; lia|]. by apply H2.
      * rewrite H3, int_of_digits_cons, Hv, length_cons, Nat2Z.inj_succ, Z.pow_succ_r by lia.
        lia.
Qed.

Lemma dec_spec n :
  all_digits (dec n) ∧ dec n ≠ [] ∧ int_of_digits (dec n) = Z.of_N n.
Proof.
  unfold dec.
  destruct (dec_go_spec (S (N.to_nat (N.log2 n))) n []) as (H1 & H2 & H3).
  - rewrite Nat2N.inj_succ, N2Nat.id.
    destruct n as [|p]; [simpl; lia|]. apply N.log2_spec. lia.
  - constructor.
  - split; [done|]. split; [by apply H2|]. rewrite H3. simpl. unfold int_of_digits. simpl. lia.
Qed.

Lemma count_text_digits n : all_digits (count_text n).
Proof.
  unfold count_text. destruct (n =? 1)%N; [constructor|]. apply dec_spec.
Qed.

Lemma take_digits_all ds : all_digits ds → take_digits ds = ds ∧ drop_digits ds = [].
Proof.
  induction 1 as [|c ds Hc _ [IH1 IH2]]; simpl; [done|]. by rewrite Hc, IH1, IH2.
Qed.

Lemma findall_symbol sym ds :
  symbol_ok sym = true → all_digits ds → findall (sym ++ ds) = [(sym, ds)].
Proof.
  intros Hsym Hds. destruct (take_digits_all ds Hds) as [Ht Hd].
  assert (∀ c t, ds = c :: t → is_lower c = false) as Hlow.
  { intros c t ->. inversion Hds; subst. by apply digit_not_lower. }
  destruct sym as [|c [|c' [|? ?]]]; try done; simpl in Hsym.
  - cbn [app]. rewrite findall_cons, Hsym.
    assert (take_lower ds = [] ∧ drop_lower ds = ds) as [-> ->].
    { destruct ds as [|d t]; [done|]. simpl. by rewrite (Hlow d t eq_refl). }
    rewrite Ht, Hd. by simp findall.
  - apply andb_true_iff in Hsym as [Hc Hc']. cbn [app].
    rewrite findall_cons, Hc. cbn [take_lower drop_lower]. rewrite Hc'.
    rewrite Ht, Hd. by simp findall.
Qed.

Lemma symbol_starts sym t : symbol_ok sym = true → starts_symbol (sym ++ t).
Proof.
  destruct sym as [|c [|c' [|? ?]]]; try done; simpl.
  by intros [? _]%andb_true_iff.
Qed.

Lemma compact_formula_starts l :
  Forall (λ kv : pystr * N, symbol_ok kv.1 = true) l → starts_symbol (compact_formula l).
Proof.
  destruct 1 as [|[sym n] l Hs _]; [done|]. simpl.
  rewrite <- app_assoc. by apply symbol_starts.
Qed.

Lemma findall_compact_formula l :
  Forall (λ kv : pystr * N, symbol_ok kv.1 = true) l →
  findall (compact_formula l) = map (λ kv, (kv.1, count_text kv.2)) l.
Proof.
  induction 1 as [|[sym n] l Hs Hl IH]; [by simp findall|].
  cbn [compact_formula flat_map map fst snd].
  rewrite findall_concat by (by apply compact_formula_starts).
  fold (compact_formula l). rewrite IH.
  by rewrite findall_symbol by (done || apply count_text_digits).
Qed.

Lemma count_text_keys (l : list (pystr * N)) :
  (map (λ kv : pystr * N, (kv.1, count_text kv.2)) l).*1 = l.*1.
Proof. induction l as [|[k n] l IH]; [done|]. simpl. f_equal. exact IH. Qed.

(** X8: parsing inverts writing.  For a compact formula (each symbol
    followed by its count, the count left out when it is 1, no symbol
    twice) the count read back for a symbol is the count written, and 0 for
    a symbol that is not there. *)
Theorem compact_formula_round_trip (l : list (pystr * N)) :
  Forall (λ kv, symbol_ok kv.1 = true ∧ (1 ≤ kv.2)%N) l →
  NoDup l.*1 →
  (∀ sym n, (sym, n) ∈ l → get (dict (findall (compact_formula l))) sym = Z.of_N n) ∧
  (∀ sym, sym ∉ l.*1 → get (dict (findall (compact_formula l))) sym = 0).
Proof.
  intros Hl Hnd.
  rewrite findall_compact_formula by (eapply Forall_impl; [done|]; by intros ? [? _]).
  split.
  - intros sym n Hin.
    apply list_elem_of_split in Hin as (l1 & l2 & ->).
    rewrite fmap_app, fmap_cons in Hnd. apply NoDup_app in Hnd as (_ & _ & Hnd).
    apply NoDup_cons in Hnd as [Hnotin _].
    rewrite map_app.
    change (map ?f ((sym, n) :: l2)) with ((sym, count_text n) :: map f l2).
    unfold get. rewrite dict_lookup_last by (by rewrite count_text_keys).
    unfold count_text. destruct (N.eqb_spec n 1) as [->|Hn1]; [done|].
    destruct (dec_spec n) as (_ & Hne & Hval). rewrite Hval.
    by destruct (dec n).
  - intros sym Hsym. unfold get, dict.
    rewrite dict_go_lookup_absent by (by rewrite count_text_keys).
    by rewrite lookup_empty.
Qed.

Lemma compact_formula_round_trip_witness :
  get (dict (findall (compact_formula [(py "C", 8%N); (py "H", 12%N); (py "Br", 1%N)])))
      (py "H") = 12.
Proof.
  apply (proj1 (compact_formula_round_trip
                  [(py "C", 8%N); (py "H", 12%N); (py "Br", 1%N)]
                  ltac:(repeat constructor; vm_compute; congruence)
                  ltac:(vm_compute; repeat constructor;
                        intros H; repeat (apply elem_of_cons in H as [H|H]; [discriminate H|]);
                        by apply elem_of_nil in H)) (py "H") 12%N).
  right. left.
Defined.

Lemma count_of_absent l sym : sym ∉ l.*1 → count_of l sym = 0%N.
Proof.
  induction l as [|[k n] l IH]; [done|]. simpl.
  rewrite not_elem_of_cons. intros [Hne Hl].
  rewrite bool_decide_eq_false_2 by done. auto.
Qed.

Lemma count_of_present l sym n :
  NoDup l.*1 → (sym, n) ∈ l → count_of l sym = n.
Proof.
  induction l as [|[k m] l IH]; intros Hnd Hin; [by apply elem_of_nil in Hin|].
  simpl in *. apply NoDup_cons in Hnd as [Hk Hnd].
  apply elem_of_cons in Hin as [[= -> ->]|Hin].
  - by rewrite bool_decide_eq_true_2.
  - rewrite bool_decide_eq_false_2; [auto|].
    intros ->. apply Hk. apply list_elem_of_fmap. by exists (sym, n).
Qed.

Lemma get_compact_formula l sym :
  Forall (λ kv, symbol_ok kv.1 = true ∧ (1 ≤ kv.2)%N) l → NoDup l.*1 →
  get (dict (findall (compact_formula l))) sym = Z.of_N (count_of l sym).
Proof.
  intros Hl Hnd.
  rewrite findall_compact_formula by (eapply Forall_impl; [done|]; by intros ? [? _]).
  destruct (decide (sym ∈ l.*1)) as [Hin|Hnotin].
  - apply list_elem_of_fmap in Hin as ([k n] & -> & Hin). simpl.
    rewrite (count_of_present l k n) by done.
    apply list_elem_of_split in Hin as (l1 & l2 & ->).
    rewrite fmap_app, fmap_cons in Hnd. apply NoDup_app in Hnd as (_ & _ & Hnd).
    apply NoDup_cons in Hnd as [Hnotin _].
    rewrite map_app.
    change (map ?f ((k, n) :: l2)) with ((k, count_text n) :: map f l2).
    unfold get. rewrite dict_lookup_last by (by rewrite count_text_keys).
    unfold count_text. destruct (N.eqb_spec n 1) as [->|Hn1]; [done|].
    destruct (dec_spec n) as (_ & Hne & Hval). rewrite Hval.
    by destruct (dec n).
  - rewrite count_of_absent by done. unfold get, dict.
    rewrite dict_go_lookup_absent by (by rewrite count_text_keys).
    by rewrite lookup_empty.
Qed.

Lemma count_of_bound l sym b :
  Forall (λ kv : pystr * N, (kv.2 < b)%N) l → (0 < b)%N → (count_of l sym < b)%N.
Proof.
  intros Hl Hb. induction Hl as [|[k n] l Hn _ IH]; simpl; [done|].
  by destruct (bool_decide (k = sym)).
Qed.

(** One match at the head of the text: the symbol, then all the digits
    that follow it. *)
Lemma findall_match sym ds rest :
  symbol_ok sym = true → all_digits ds →
  next_is_not is_digit rest →
  (length sym = 1%nat → next_is_not is_lower (ds ++ rest)) →
  findall (sym ++ ds ++ rest) = (sym, ds) :: findall rest.
Proof.
  intros Hsym Hds Hrest Hlow.
  assert (take_digits (ds ++ rest) = ds ∧ drop_digits (ds ++ rest) = rest) as [Ht Hd].
  { clear Hlow. induction Hds as [|d ds Hd _ [IH1 IH2]]; simpl.
    - destruct rest as [|c rest]; [done|]. simpl in *. by rewrite Hrest.
    - by rewrite Hd, IH1, IH2. }
  destruct sym as [|c [|c' [|? ?]]]; try done; simpl in Hsym.
  - cbn [app]. rewrite findall_cons, Hsym.
    assert (take_lower (ds ++ rest) = [] ∧ drop_lower (ds ++ rest) = ds ++ rest)
      as [-> ->].
    { specialize (Hlow eq_refl). destruct (ds ++ rest) as [|x t]; [done|].
      simpl in *. by rewrite Hlow. }
    by rewrite Ht, Hd.
  - apply andb_true_iff in Hsym as [Hc Hc']. cbn [app].
    rewrite findall_cons, Hc. cbn [take_lower drop_lower]. rewrite Hc'.
    by rewrite Ht, Hd.
Qed.

(** C4: the matches of the formula regex, read off the text.  Nothing is
    matched in an empty text; a character that is not an upper-case letter
    is passed over; at an upper-case letter the match is that letter, one
    lower-case letter if one follows, and all the digits after it, and the
    scan goes on behind them.  Every match has that shape.  A symbol with
    no match counts 0; otherwise its last match decides: empty digits count
    1, digits are read as a number.  So a formula written as symbols with
    their counts reads back as written, and C8H12Br gives C = 8, H = 12,
    Br = 1 and 0 for N, F, Cl and I. *)
Theorem element_counts formula :
  findall [] = [] ∧
  (∀ c rest, is_upper c = false → findall (c :: rest) = findall rest) ∧
  (∀ sym ds rest,
     symbol_ok sym = true → all_digits ds →
     next_is_not is_digit rest →
     (length sym = 1%nat → next_is_not is_lower (ds ++ rest)) →
     findall (sym ++ ds ++ rest) = (sym, ds) :: findall rest) ∧
  Forall (λ kv, symbol_shape kv.1 ∧ all_digits kv.2) (findall formula) ∧
  (∀ sym, sym ∉ (findall formula).*1 → get (dict (findall formula)) sym = 0) ∧
  (∀ sym ds front rest,
     findall formula = front ++ (sym, ds) :: rest → sym ∉ rest.*1 →
     get (dict (findall formula)) sym =
       match ds with [] => 1 | _ => int_of_digits ds end) ∧
  (∀ l sym,
     Forall (λ kv, symbol_ok kv.1 = true ∧ (1 ≤ kv.2)%N) l → NoDup l.*1 →
     get (dict (findall (compact_formula l))) sym = Z.of_N (count_of l sym)) ∧
  (let counts := dict (findall (py "C8H12Br")) in
   get counts (py "C") = 8 ∧ get counts (py "H") = 12 ∧ get counts (py "Br") = 1 ∧
   get counts (py "N") = 0 ∧ get counts (py "F") = 0 ∧ get counts (py "Cl") = 0 ∧
   get counts (py "I") = 0).
Proof.
  split; [by simp findall|].
  split; [intros c rest Hc; by rewrite findall_cons, Hc|].
  split; [apply findall_match|].
  split; [apply findall_shape|]. split; [|split; [|split]].
  - intros sym Hsym. unfold get, dict.
    rewrite dict_go_lookup_absent by done. by rewrite lookup_empty.
  - intros sym ds front rest -> Hsym. unfold get.
    by rewrite dict_lookup_last.
  - intros l sym Hl Hnd. by apply get_compact_formula.
  - vm_compute. repeat split; reflexivity.
Qed.

Lemma element_counts_witness :
  findall (py "Br" ++ py "2" ++ py "Cl") = (py "Br", py "2") :: findall (py "Cl") ∧
  get (dict (findall (py "C8H12Br"))) (py "N") = 0 ∧
  get (dict (findall (py "C8H12Br"))) (py "Br") = 1 ∧
  get (dict (findall (compact_formula [(py "C", 8%N); (py "H", 12%N); (py "Br", 1%N)])))
      (py "H") = 12.
Proof.
  pose proof (element_counts (py "C8H12Br"))
    as (_ & _ & Hmatch & _ & Habsent & Hlast & Hcompact & _).
  split; [|split; [|split]].
  - apply Hmatch.
    + reflexivity.
    + repeat constructor.
    + reflexivity.
    + intros Hlen. vm_compute in Hlen. discriminate Hlen.
  - apply Habsent.
    vm_compute. intros H. repeat (apply elem_of_cons in H as [H|H]; [discriminate H|]).
    by apply elem_of_nil in H.
  - apply (Hlast (py "Br") [] [(py "C", py "8"); (py "H", py "12")] []).
    + vm_compute. reflexivity.
    + apply not_elem_of_nil.
  - apply (Hcompact [(py "C", 8%N); (py "H", 12%N); (py "Br", 1%N)] (py "H")).
    + repeat constructor; vm_compute; congruence.
    + vm_compute. repeat constructor;
        (intros H; repeat (apply elem_of_cons in H as [H|H]; [discriminate H|]);
         by apply elem_of_nil in H).
Defined.

Section Facts.
Context `{E : Externals}.

(** X14: when RDKit's formula is a compact formula with counts below
    2^49, [compute_facts] succeeds, hands the formula on unchanged, and its
    degree of unsaturation is exactly 1 + C - (H + F + Cl + Br + I - N)/2
    of the counts written in the formula. *)
Theorem compute_facts_compact_formula mol l :
  CalcMolFormula mol = compact_formula l →
  Forall (λ kv, symbol_ok kv.1 = true ∧ (1 ≤ kv.2)%N) l → NoDup l.*1 →
  Forall (λ kv, (kv.2 < 2 ^ 49)%N) l →
  let c := λ sym, Z.of_N (count_of l (py sym)) in
  ∃ du q,
    compute_facts mol = Ok (compact_formula l, round4 (CalcExactMolWt mol), du) ∧
    float_value du = Some q ∧
    (q == inject_Z (1 + c "C")
          - inject_Z (c "H" + (c "F" + c "Cl" + c "Br" + c "I") - c "N") / 2)%Q.
Proof.
  intros Hf Hl Hnd Hb c. unfold compute_facts, du_of_formula. rewrite Hf.
  rewrite !get_compact_formula by done.
  assert (∀ sym, 0 ≤ c sym < 2 ^ 49) as Hc.
  { intros sym. unfold c.
    pose proof (count_of_bound l (py sym) (2 ^ 49)%N Hb ltac:(lia)). lia. }
  pose proof (Hc "C"). pose proof (Hc "H"). pose proof (Hc "N"). pose proof (Hc "F").
  pose proof (Hc "Cl"). pose proof (Hc "Br"). pose proof (Hc "I").
  fold (c "C") (c "H") (c "N") (c "F") (c "Cl") (c "Br") (c "I").
  unfold formula_du.
  destruct (formula_du_core (1 + c "C") (c "H" + (c "F" + c "Cl" + c "Br" + c "I") - c "N"))
    as (f & q & Hrun & Hv & Hq); try (unfold prec; lia).
  exists f, q. cbn [mbind result_bind] in *. rewrite Hrun. by cbn.
Qed.

End Facts.

Lemma compute_facts_compact_formula_witness :
  ∃ du q,
    compute_facts (E := toy) (py "CCO", true)
      = Ok (py "C2H6O", S754_finite false 46 0, du) ∧
    float_value du = Some q ∧ (q == 0)%Q.
Proof.
  destruct (compute_facts_compact_formula (E := toy) (py "CCO", true)
              [(py "C", 2%N); (py "H", 6%N); (py "O", 1%N)])
    as (du & q & Hrun & Hv & Hq).
  - vm_compute. reflexivity.
  - repeat constructor; vm_compute; congruence.
  - vm_compute. repeat constructor;
      (intros H; repeat (apply elem_of_cons in H as [H|H]; [discriminate H|]);
       by apply elem_of_nil in H).
  - repeat constructor.
  - exists du, q. split; [exact Hrun|]. split; [done|]. rewrite Hq. vm_compute. reflexivity.
Defined.

(** ** The text of the degree of unsaturation *)

Lemma digits_double p : digits p~0 = digits p + 1.
Proof.
  unfold digits. change (Zpos p~0) with (2 * Zpos p). rewrite Z.log2_double by lia. lia.
Qed.

Lemma norm_double p : digits p < prec → norm p~0 = norm p.
Proof.
  intros Hd. unfold norm. rewrite digits_double. f_equal.
  change (Zpos p~0) with (2 * Zpos p).
  replace (prec - digits p) with (Z.succ (prec - (digits p + 1))) by lia.
  rewrite Z.pow_succ_r by lia. lia.
Qed.

(** The float that [formula_du] returns, from the doubled exact value. *)
Lemma formula_du_repr z h :
  0 < z < 2 ^ (prec - 1) → Z.abs h < 2 ^ prec → Z.abs (2 * z - h) < 2 ^ prec →
  (half ← int_truediv h 2 ; lhs' ← float_of_int z ; Ok (float_sub lhs' half))
  = Ok match 2 * z - h with
       | 0 => S754_zero false
       | Zpos pn => S754_finite false (norm pn) (digits pn - prec - 1)
       | Zneg pn => S754_finite true (norm pn) (digits pn - prec - 1)
       end.
Proof.
  intros Hz Hh HN. destruct z as [|pz|pz]; try lia.
  assert (Zpos pz < 2 ^ prec) as Hz' by (unfold prec in *; lia).
  rewrite float_of_int_exact by done.
  destruct (Z.abs h) as [|ph|ph] eqn:Hah; try lia.
  - assert (h = 0) as -> by lia.
    change (int_truediv 0 2) with (Ok (S754_zero false)). cbn [mbind result_bind].
    change (float_sub ?a (S754_zero false)) with a.
    replace (2 * Zpos pz - 0) with (Zpos pz~0) by lia.
    assert (digits pz < prec) as Hd.
    { unfold digits. assert (Z.log2 (Zpos pz) < prec - 1); [|lia].
      apply Z.log2_lt_pow2; lia. }
    rewrite norm_double, digits_double by done. do 2 f_equal. lia.
  - rewrite (int_truediv_2_exact h ph) by (done || lia). cbn [mbind result_bind].
    by rewrite (float_sub_exact pz h ph) by (done || lia).
Qed.

Lemma round_half_even_exact q d : 0 < d → round_half_even (q * d) d = q.
Proof.
  intros Hd. unfold round_half_even.
  rewrite Z.div_mul, Z.mod_mul by lia.
  destruct (Z.compare_spec (2 * 0) d); lia.
Qed.

(** The text of a half-integer held exactly. *)
Lemma format_1f_half s pn :
  digits pn ≤ prec →
  format_1f (S754_finite s (norm pn) (digits pn - prec - 1))
  = (if s then py "-" else []) ++ dec (Z.to_N (Zpos pn / 2)) ++ py "."
    ++ (if Z.even (Zpos pn) then py "0" else py "5").
Proof.
  intros Hd. pose proof (digits_pos pn) as Hd1. unfold format_1f.
  destruct (digits pn - prec - 1) as [|e|e] eqn:He; try (unfold prec in *; lia).
  change (Z.pow_pos 2 e) with (2 ^ Zpos e).
  rewrite norm_val by done.
  assert (2 ^ Zpos e = 2 * 2 ^ (prec - digits pn)) as ->.
  { replace (Zpos e) with (Z.succ (prec - digits pn)) by lia.
    apply Z.pow_succ_r. lia. }
  assert (0 < 2 ^ (prec - digits pn)) as HK by (apply Z.pow_pos_nonneg; lia).
  replace (Zpos pn * 2 ^ (prec - digits pn) * 10)
    with (5 * Zpos pn * (2 * 2 ^ (prec - digits pn))) by lia.
  rewrite round_half_even_exact by lia.
  change 10 with (5 * 2). rewrite Z.div_mul_cancel_l, Z.mul_mod_distr_l by lia.
  rewrite Zmod_even. by destruct (Z.even (Zpos pn)).
Qed.

(** X9: for counts below 2^51 the one-decimal text of the degree of
    unsaturation is the exact value: the integer part of half the doubled
    value, then ".0" or ".5", with a minus sign when negative. *)
Theorem du_text_is_exact nC nH nN nX :
  0 ≤ nC < 2 ^ 51 → 0 ≤ nH < 2 ^ 51 → 0 ≤ nN < 2 ^ 51 → 0 ≤ nX < 2 ^ 51 →
  let twice := 2 * (1 + nC) - (nH + nX - nN) in
  ∃ f, formula_du nC nH nN nX = Ok f ∧
       format_1f f = (if twice <? 0 then py "-" else [])
                     ++ dec (Z.to_N (Z.abs twice / 2)) ++ py "."
                     ++ (if Z.even twice then py "0" else py "5").
Proof.
  intros HC HH HN HX twice. unfold formula_du.
  rewrite formula_du_repr by (unfold prec; lia).
  fold twice. eexists. split; [reflexivity|].
  assert (Z.abs twice < 2 ^ prec) as Hb by (unfold twice, prec; lia).
  destruct twice as [|pn|pn].
  - vm_compute. reflexivity.
  - rewrite format_1f_half by (apply digits_bound; lia). reflexivity.
  - rewrite format_1f_half by (apply digits_bound; lia). reflexivity.
Qed.

Lemma du_text_is_exact_witness :
  ∃ f, formula_du 8 12 0 1 = Ok f ∧ format_1f f = py "2.5".
Proof.
  destruct (du_text_is_exact 8 12 0 1) as (f & Hf & Ht); try lia.
  exists f. split; [done|]. rewrite Ht. vm_compute. reflexivity.
Defined.

(** ** Steps of [main] *)

Section MainMore.
Context `{E : Externals}.

(** X10: formula-only mode never succeeds, whatever the formula and
    whatever [slugify] is bound to: [main] ends in an exception having
    written no file, rendered no template and printed nothing. *)
Theorem formula_mode_never_succeeds ns args w :
  truthy (args_formula args) = true →
  (∃ e, fst (main ns args w) = Raise e) ∧
  files (snd (main ns args w)) = files w ∧
  renders (snd (main ns args w)) = renders w ∧
  stdout (snd (main ns args w)) = stdout w.
Proof.
  intros Hmode. unfold main, mbind, M_bind, lift. rewrite Hmode.
  destruct (load_global ns (py "slugify")) as [slugify|e]; [|cbn; eauto].
  set (title := py_or _ _). destruct (call1 slugify title) as [slug|e]; [|cbn; eauto].
  unfold ensure_out. destruct (files w !! path_div _ slug); cbn; eauto.
Qed.

(** X11: [make_artifacts] step by step, in an output directory that has
    been created.  A failed minimisation writes nothing; a failed depiction
    leaves model.sdf behind; on success the text returned is the text in
    model.sdf, structure.png holds the image, and no other path is
    touched. *)
Theorem make_artifacts_outcome mol outdir w r w' :
  outdir ∈ dirs w →
  make_artifacts mol outdir w = (r, w') →
  let sdf_path := path_div outdir (py "model.sdf") in
  let png_path := path_div outdir (py "structure.png") in
  (* a failed minimisation writes nothing *)
  (∀ e, UFFOptimizeMolecule (EmbedMolecule mol) = Raise e → r = Raise e ∧ w' = w) ∧
  (∀ m, UFFOptimizeMolecule (EmbedMolecule mol) = Ok m →
        encodable (MolToMolBlock m) = true →
        (* a failed depiction leaves model.sdf behind *)
        (∀ e, MolToFile (Compute2DCoords (RemoveHs m)) = Raise e →
              r = Raise e ∧ files w' = <[sdf_path := Text (MolToMolBlock m)]> (files w)) ∧
        (* on success the text returned is the text on disk *)
        (∀ png, MolToFile (Compute2DCoords (RemoveHs m)) = Ok png →
                r = Ok (MolToMolBlock m) ∧
                files w' !! png_path = Some png ∧
                (sdf_path ≠ png_path →
                 files w' !! sdf_path = Some (Text (MolToMolBlock m))) ∧
                (∀ p, p ≠ sdf_path → p ≠ png_path → files w' !! p = files w !! p))).
Proof.
  intros _ Hrun sdf_path png_path.
  unfold make_artifacts, mbind, M_bind, lift, write_text, write_content in Hrun.
  split.
  - intros e He. rewrite He in Hrun. by injection Hrun as <- <-.
  - intros m Hm Henc. rewrite Hm, Henc in Hrun. split.
    + intros e He. rewrite He in Hrun. by injection Hrun as <- <-.
    + intros png Hp. rewrite Hp in Hrun. injection Hrun as <- <-.
      split; [done|]. cbn [files set_files]. fold sdf_path png_path.
      split; [by rewrite lookup_insert_eq|]. split.
      * intros Hne. by rewrite lookup_insert_ne, lookup_insert_eq.
      * intros p H1 H2. by rewrite !lookup_insert_ne.
Qed.

(** X13: edges of [mol_from_any].  Without a name the world is left as
    it is; with nothing given at all the SMILES parser is handed [None]
    ([TypeError]); with an InChI beside a SMILES the InChI is parsed but the
    SMILES is echoed; a failed name translation stops the builder with the
    translator's exception. *)
Theorem mol_from_any_edge_cases w :
  (* with no name nothing outside is touched *)
  (∀ name smiles inchi, truthy name = false →
     snd (mol_from_any name smiles inchi w) = w) ∧
  (* nothing given at all *)
  (∀ name inchi, truthy name = false → truthy inchi = false →
     fst (mol_from_any name None inchi w) = Raise TypeError) ∧
  (* an InChI beside a SMILES: the InChI is parsed, the SMILES is echoed *)
  (∀ name c s c' i, truthy name = false →
     fst (mol_from_any name (Some (c :: s)) (Some (c' :: i)) w) =
       match MolFromInchi (c' :: i) with
       | Some m => Ok (AddHs m, c :: s)
       | None => Raise (ValueError (py "Could not parse structure from input."))
       end) ∧
  (* a failed translation stops the builder *)
  (∀ c n smiles inchi e w',
     name_to_smiles (c :: n) w = (Raise e, w') →
     mol_from_any (Some (c :: n)) smiles inchi w = (Raise e, w')).
Proof.
  split; [|split; [|split]].
  - intros name smiles inchi Hn. unfold mol_from_any, mbind, M_bind, mret, M_ret, raise.
    destruct name as [[|c n]|]; try done;
      destruct inchi as [[|c' i]|]; destruct smiles as [s|]; cbn;
      repeat case_match; done.
  - intros name inchi Hn Hi. unfold mol_from_any, mbind, M_bind, mret, M_ret, raise.
    destruct name as [[|c n]|]; try done; destruct inchi as [[|c' i]|]; done.
  - intros name c s c' i Hn. unfold mol_from_any, mbind, M_bind, mret, M_ret, raise.
    destruct name as [[|c0 n]|]; try done; cbn; by destruct (MolFromInchi (c' :: i)).
  - intros c n smiles inchi e w' Hrun. unfold mol_from_any, mbind, M_bind.
    by rewrite Hrun.
Qed.

End MainMore.

Lemma formula_mode_never_succeeds_witness :
  (∃ e, fst (main patched_namespace args_C8H12Br toy_world) = Raise e) ∧
  files (snd (main patched_namespace args_C8H12Br toy_world)) = files toy_world ∧
  renders (snd (main patched_namespace args_C8H12Br toy_world)) = renders toy_world ∧
  stdout (snd (main patched_namespace args_C8H12Br toy_world)) = stdout toy_world.
Proof. apply formula_mode_never_succeeds. reflexivity. Defined.

Lemma make_artifacts_outcome_witness :
  let mol : @Mol toy := (py "CCO", true) in
  let w := snd (ensure_out (py "out/ethanol") toy_world) in
  fst (make_artifacts mol (py "out/ethanol") w) = Ok (py "ethanol.mol") ∧
  files (snd (make_artifacts mol (py "out/ethanol") w))
    !! (py "out/ethanol/model.sdf") = Some (Text (py "ethanol.mol")).
Proof.
  intros mol w.
  assert (py "out/ethanol" ∈ dirs w) as Hdir.
  { unfold w, ensure_out. cbn [snd dirs]. apply elem_of_union. left.
    by apply elem_of_singleton. }
  destruct (make_artifacts mol (py "out/ethanol") w) as [r w'] eqn:Hrun.
  destruct (proj2 (make_artifacts_outcome _ _ _ _ _ Hdir Hrun) mol eq_refl eq_refl)
    as [_ Hok].
  destruct (Hok Binary eq_refl) as (-> & _ & Hsdf & _).
  split; [done|]. apply Hsdf. vm_compute. discriminate.
Defined.

Lemma mol_from_any_edge_cases_witness :
  fst (mol_from_any None None None toy_world) = Raise TypeError.
Proof. by apply (proj1 (proj2 (mol_from_any_edge_cases toy_world))). Defined.
